(** * airforge-backend: the request pipelines of [main.py]

    A shallow embedding of the two endpoints of [main.py]
    ([generate_contract] and [compile_contract]) and of the string
    functions they rest on ([parse_llm_output], the two [re.sub] calls
    that sanitize submitted source), with the properties of the
    specification stated and proved over them.

    Python strings are sequences of Unicode code points; a string is
    modelled as a list of code points ([N]).  The functions of the Python
    runtime that the code calls ([str.strip], [str.split], [str.format],
    [re.search], [re.sub]) are modelled by what they compute on the
    patterns and arguments that [main.py] passes to them. *)

From Stdlib Require Import Ascii String.
From Stdlib Require Import List NArith Bool Arith Lia.
Import ListNotations.

Set Implicit Arguments.

(** ** Python strings *)

Definition char := N.
Definition str := list char.

(** A literal of the source, as code points.  The literals of [main.py]
    that the model needs are ASCII. *)
Definition py (s : string) : str := map N_of_ascii (list_ascii_of_string s).

Definition nl : char := 10%N.
Definition dquote : char := 34%N.
Definition slash : char := 47%N.

(** [str.isspace] on one character: the code points CPython's
    [_PyUnicode_IsWhitespace] accepts. *)
Definition isspace (c : char) : bool :=
  ((9 <=? c) && (c <=? 13)
   || (28 <=? c) && (c <=? 32)
   || (c =? 133) || (c =? 160) || (c =? 5760)
   || (8192 <=? c) && (c <=? 8202)
   || (c =? 8232) || (c =? 8233) || (c =? 8239) || (c =? 8287)
   || (c =? 12288))%N.

Fixpoint drop_while (p : char -> bool) (s : str) : str :=
  match s with
  | [] => []
  | c :: s' => if p c then drop_while p s' else s
  end.

Fixpoint take_while (p : char -> bool) (s : str) : str :=
  match s with
  | [] => []
  | c :: s' => if p c then c :: take_while p s' else []
  end.

Definition lstrip (s : str) : str := drop_while isspace s.
Definition rstrip (s : str) : str := rev (drop_while isspace (rev s)).

(** [s.strip()] *)
Definition strip (s : str) : str := rstrip (lstrip s).

(** [s.startswith(pat)], returning the rest of [s] after [pat]. *)
Fixpoint strip_prefix (pat s : str) : option str :=
  match pat, s with
  | [], _ => Some s
  | _ :: _, [] => None
  | p :: pat', c :: s' => if (p =? c)%N then strip_prefix pat' s' else None
  end.

Definition starts_with (pat s : str) : bool :=
  match strip_prefix pat s with Some _ => true | None => false end.

(** [pat] occurs in [s] at index [i]. *)
Definition occ_at (pat s : str) (i : nat) : bool := starts_with pat (skipn i s).

(** All indices of [s] at which [pat] occurs, overlapping ones included. *)
Definition positions (pat s : str) : list nat :=
  filter (occ_at pat s) (seq 0 (S (length s))).

(** [pat in s] *)
Definition contains (pat s : str) : bool :=
  existsb (occ_at pat s) (seq 0 (S (length s))).

(** The first occurrence of [pat] in [s] is at index [i]. *)
Definition first_at (pat s : str) (i : nat) : bool :=
  occ_at pat s i && forallb (fun j => negb (occ_at pat s j)) (seq 0 i).

(** The number of occurrences of the character [c] in [s]. *)
Definition count_char (c : char) (s : str) : nat :=
  length (filter (N.eqb c) s).

(** ["\n".join(ls)] *)
Fixpoint join_lines (ls : list str) : str :=
  match ls with
  | [] => []
  | l :: ls' =>
      match ls' with
      | [] => l
      | _ :: _ => l ++ nl :: join_lines ls'
      end
  end.

(** ** Regular expressions, as [main.py] uses them

    A pattern is modelled by its matcher: given the text from the current
    position on, the length of the match that starts there, if there is
    one.  [re_sub] is the scan of [re.sub(pattern, '', text)]: the
    leftmost match is deleted and the scan resumes after it.  The patterns
    of [main.py] never match the empty string; a matcher that did would be
    treated as a failure to match at that position. *)

Definition matcher := str -> option nat.

Fixpoint re_sub_from (m : matcher) (skip : nat) (s : str) : str :=
  match s with
  | [] => []
  | c :: s' =>
      match skip with
      | S k => re_sub_from m k s'
      | O =>
          match m s with
          | Some (S n) => re_sub_from m n s'
          | _ => c :: re_sub_from m 0 s'
          end
      end
  end.

Definition re_sub (m : matcher) (s : str) : str := re_sub_from m 0 s.

(** A pattern without metacharacters. *)
Definition m_literal (lit : str) : matcher :=
  fun s => if starts_with lit s then Some (length lit) else None.

Definition not_nl (c : char) : bool := negb (c =? nl)%N.

(** [lit.*] without [re.DOTALL]: the literal, then greedily every
    character up to the next line feed. *)
Definition m_literal_dotstar (lit : str) : matcher :=
  fun s =>
    match strip_prefix lit s with
    | Some rest => Some (length lit + length (take_while not_nl rest))
    | None => None
    end.

(** ** [compile_contract]: the sanitizer *)

Definition spdx_line : str := py "// SPDX-License-Identifier: MIT".
Definition slashes : str := py "//".

(** [re.sub(r'// SPDX-License-Identifier: MIT', '', code)] *)
Definition remove_spdx (code : str) : str := re_sub (m_literal spdx_line) code.

(** [re.sub(r'//.*', '', code)] *)
Definition remove_comments (code : str) : str :=
  re_sub (m_literal_dotstar slashes) code.

(** The two assignments to [request.code] at the head of
    [compile_contract]. *)
Definition sanitize (code : str) : str := remove_comments (remove_spdx code).

(** ** [parse_llm_output] *)

Definition fence : str := py "```".
Definition solidity_tag : str := py "```solidity".

(** The reply holds a block: an occurrence of the tagged fence and, after
    it, an occurrence of the bare fence. *)
Definition has_block (s : str) : bool :=
  existsb
    (fun i =>
       occ_at solidity_tag s i
       && existsb (occ_at fence s)
            (seq (i + length solidity_tag) (S (length s))))
    (seq 0 (S (length s))).

(** [(.*?)close] under [re.DOTALL]: the lazy group takes no character
    while [close] matches where it stands, and one more otherwise.  The
    result is the group's text and the text after [close]. *)
Fixpoint lazy_until (close : str) (s : str) : option (str * str) :=
  match strip_prefix close s with
  | Some rest => Some ([], rest)
  | None =>
      match s with
      | [] => None
      | c :: s' =>
          match lazy_until close s' with
          | Some (g, rest) => Some (c :: g, rest)
          | None => None
          end
      end
  end.

(** The pattern [```solidity(.*?)```] tried at the head of [s]: group 1
    of the match. *)
Definition m_solidity_block (s : str) : option str :=
  match strip_prefix solidity_tag s with
  | Some rest =>
      match lazy_until fence rest with
      | Some (g, _) => Some g
      | None => None
      end
  | None => None
  end.

(** [re.search]: the pattern is tried at every index from the left, the
    end of the text included; the first index where it matches wins. *)
Fixpoint re_search (A : Type) (m : str -> option A) (s : str) : option A :=
  match m s with
  | Some g => Some g
  | None =>
      match s with
      | [] => None
      | _ :: s' => re_search m s'
      end
  end.

(** [s.split(sep)] for a separator that is not empty, as its first
    segment and the segments after it: the leftmost occurrence of [sep]
    ends the segment and the scan resumes after it. *)
Fixpoint split_from (sep : str) (skip : nat) (s : str) : str * list str :=
  match s with
  | [] => ([], [])
  | c :: s' =>
      match skip with
      | S k => split_from sep k s'
      | O =>
          if starts_with sep s then
            let (seg, segs) := split_from sep (length sep - 1) s' in
            ([], seg :: segs)
          else
            let (seg, segs) := split_from sep 0 s' in
            (c :: seg, segs)
      end
  end.

Definition split (sep s : str) : list str :=
  let (seg, segs) := split_from sep 0 s in seg :: segs.

(** ** Exceptions and results

    An exception that [except Exception as e] catches is modelled by its
    class and by the text [str(e)].  [HTTPException] is what the endpoints
    raise themselves. *)

Inductive exn_class :=
| IndexError | KeyError | TypeError | ValueError | AttributeError
| CollaboratorError.

Record exn := Raised { exn_cls : exn_class; exn_text : str }.

Definition result (A : Type) : Type := exn + A.

Record http_exception := HTTPException { status_code : N; detail : str }.

(** [xs[0]] and [xs[-1]] on a list. *)
Definition index_error : exn := Raised IndexError (py "list index out of range").

Definition item_first (A : Type) (xs : list A) : result A :=
  match xs with
  | [] => inl index_error
  | x :: _ => inr x
  end.

Definition item_last (A : Type) (xs : list A) : result A :=
  match nth_error xs (length xs - 1) with
  | Some x => inr x
  | None => inl index_error
  end.

(** The body of [parse_llm_output], an exception of the list indexing
    included. *)
Definition parse_llm_output (output : str) : result (str * str * str) :=
  let code_match := re_search m_solidity_block output in
  let code := match code_match with Some g => strip g | None => [] end in
  let parts := split fence output in
  match item_first parts with
  | inl e => inl e
  | inr p0 =>
      let first_explanation := strip p0 in
      match item_last parts with
      | inl e => inl e
      | inr pl =>
          let last_explanation := strip pl in
          inr (code, first_explanation, last_explanation)
      end
  end.

(** ** Endpoints: outcomes and effects

    A call of an endpoint returns, raises [HTTPException], or lets another
    exception escape.  What it prints and what it sends to the language
    model is recorded, in order, in a trace. *)

Inductive outcome (A : Type) : Type :=
| Returned (a : A)
| RaisedHTTP (h : http_exception)
| Unhandled (e : exn).
Arguments Returned {A} a.
Arguments RaisedHTTP {A} h.
Arguments Unhandled {A} e.

(** The keyword arguments of [CLAUDE_CLIENT.messages.create]. *)
Record llm_request := LLMRequest {
  model : str;
  max_tokens : N;
  temperature : N;
  messages : list (str * str)   (* role, content *)
}.

(** A block of [response.content]: one with a [text] attribute, or one of
    another class. *)
Inductive content_block :=
| TextBlock (text : str)
| OtherBlock (class_name : str).

Definition llm_response := list content_block.

Inductive event :=
| Printed (text : str)
| MessagesCreate (req : llm_request).

Definition io (A : Type) : Type := list event -> outcome A * list event.

Definition ret (A : Type) (a : A) : io A := fun tr => (Returned a, tr).

Definition bind (A B : Type) (m : io A) (k : A -> io B) : io B :=
  fun tr =>
    match m tr with
    | (Returned a, tr') => k a tr'
    | (RaisedHTTP h, tr') => (RaisedHTTP h, tr')
    | (Unhandled e, tr') => (Unhandled e, tr')
    end.

Definition emit (ev : event) : io unit := fun tr => (Returned tt, tr ++ [ev]).

(** A step that can raise, run where nothing catches the exception. *)
Definition lift (A : Type) (r : result A) : io A :=
  fun tr => match r with inl e => (Unhandled e, tr) | inr a => (Returned a, tr) end.

(** [try: body  except Exception as e: raise HTTPException(500, str(e))].
    No body of [main.py] raises [HTTPException] itself, so the handler
    only ever sees the other exceptions. *)
Definition try_500 (A : Type) (body : io A) : io A :=
  fun tr =>
    match body tr with
    | (Unhandled e, tr') => (RaisedHTTP (HTTPException 500 (exn_text e)), tr')
    | r => r
    end.

Declare Scope io_scope.
Delimit Scope io_scope with io.
Notation "x <- m ;; k" := (bind m (fun x => k))
  (at level 61, m at next level, right associativity) : io_scope.
Notation "m ;;; k" := (bind m (fun _ => k))
  (at level 61, right associativity) : io_scope.

(** ** [generate_smart_contract] and [generate_contract] *)

Definition unlines (ls : list str) : str :=
  concat (map (fun l => l ++ [nl]) ls).

Definition quoted (s : string) : str := dquote :: py s ++ [dquote].

(** The literal bound to [prompt_template], braces doubled as in the
    source. *)
Definition prompt_template : str :=
  unlines
    [ py "";
      py "You are a blockchain developer. You have following simple token contract example.";
      py "```solidity";
      py "pragma solidity ^0.8.20;";
      py "";
      py "import " ++ quoted "@openzeppelin/contracts/token/ERC20/ERC20.sol" ++ py ";";
      py "import " ++ quoted "@openzeppelin/contracts/access/Ownable.sol" ++ py ";";
      py "";
      py "contract MyToken is ERC20, Ownable {{";
      py "    constructor()";
      py "        ERC20(" ++ quoted "MyToken" ++ py ", " ++ quoted "MTK" ++ py ")";
      py "        Ownable(msg.sender)";
      py "    {{";
      py "    }}";
      py "";
      py "    function mint(address to, uint256 amount) public onlyOwner {{";
      py "        _mint(to, amount);";
      py "    }}";
      py "}}";
      py "```";
      py "";
      py "Create a Solidity smart contract with the following description: ";
      py "{description}" ].

Definition lbrace : char := 123%N.
Definition rbrace : char := 125%N.

Definition value_error (msg : string) : exn := Raised ValueError (py msg).

(** [template.format(description=description)]: a doubled brace stands
    for one brace, the field [{description}] for the argument, and any
    other use of a brace raises ([prompt_template] has none, and the text
    of that error is not modelled further). *)
Fixpoint format_from (description : str) (skip : nat) (t : str) : result str :=
  match t with
  | [] => inr []
  | c :: t' =>
      match skip with
      | S k => format_from description k t'
      | O =>
          let emit_then (out : str) (k : nat) :=
            match format_from description k t' with
            | inr r => inr (out ++ r)
            | inl e => inl e
            end in
          if starts_with (py "{{") t then emit_then [lbrace] 1
          else if starts_with (py "}}") t then emit_then [rbrace] 1
          else if starts_with (py "{description}") t then emit_then description 12
          else if (c =? lbrace)%N || (c =? rbrace)%N
               then inl (value_error "invalid format string")
          else emit_then [c] 0
      end
  end.

Definition format (t description : str) : result str := format_from description 0 t.

(** [response.content[0].text] *)
Definition block_text (b : content_block) : result str :=
  match b with
  | TextBlock t => inr t
  | OtherBlock cls =>
      inl (Raised AttributeError
             (py "'" ++ cls ++ py "' object has no attribute 'text'"))
  end.

Definition llm_request_of (prompt : str) : llm_request :=
  {| model := py "claude-3-5-sonnet-20240620";
     max_tokens := 1024;
     temperature := 0;
     messages := [(py "user", prompt)] |}.

(** The three entries of the dictionary that [generate_contract] returns. *)
Record generation_result := GenerationResult {
  code : str;
  first_explanation : str;
  last_explanation : str
}.

Section Generation.

(** The language-model collaborator: what one call of
    [CLAUDE_CLIENT.messages.create] returns or raises. *)
Variable anthropic_create : llm_request -> result llm_response.

Definition messages_create (req : llm_request) : io llm_response :=
  (emit (MessagesCreate req) ;;; lift (anthropic_create req))%io.

Definition generate_smart_contract (description : str) : io str :=
  (prompt <- lift (format prompt_template description) ;;
   emit (Printed prompt) ;;;
   try_500
     (response <- messages_create (llm_request_of prompt) ;;
      block <- lift (item_first response) ;;
      text <- lift (block_text block) ;;
      ret (strip text)))%io.

Definition generate_contract (description : str) : io generation_result :=
  (llm_output <- generate_smart_contract description ;;
   emit (Printed llm_output) ;;;
   parsed <- lift (parse_llm_output llm_output) ;;
   let '(c, f, l) := parsed in
   ret {| code := c; first_explanation := f; last_explanation := l |})%io.

End Generation.

(** ** [compile_contract] *)

Local Unset Elimination Schemes.

(** A value that [json.loads] builds.  An object keeps its keys, which
    are distinct, in the order of the text; [keys()] lists them in that
    order. *)
Inductive json :=
| JNull
| JBool (b : bool)
| JNumber (numeral : str)
| JString (s : str)
| JArray (items : list json)
| JObject (fields : list (str * json)).

Local Set Elimination Schemes.

Fixpoint str_eqb (a b : str) : bool :=
  match a, b with
  | [], [] => true
  | x :: a', y :: b' => (x =? y)%N && str_eqb a' b'
  | _, _ => false
  end.

Fixpoint assoc (k : str) (fields : list (str * json)) : option json :=
  match fields with
  | [] => None
  | (k', v) :: rest => if str_eqb k k' then Some v else assoc k rest
  end.

(** The first argument of [compile_standard] and its keyword arguments. *)
Record compile_request := CompileRequest {
  language : str;
  source_name : str;
  content : str;
  output_selection : list str;
  remappings : list str;
  solc_version : str;
  allow_paths : list str
}.

(** The dictionary that [compile_contract] returns. *)
Record compile_result := CompileResult {
  abi : json;
  bytecode : json
}.

Section Compilation.

(** The compiler collaborator: what [compile_standard] returns or
    raises. *)
Variable compile_standard : compile_request -> result json.

(** [str(OPENZEPPELIN_PATH)] *)
Variable OPENZEPPELIN_PATH : str.

(** The texts of the exceptions the runtime raises when a value that is
    no dictionary is subscripted with a string or asked for its keys. *)
Variable subscript_error_text : json -> str.
Variable keys_error_text : json -> str.

(** [v[key]] for a string [key].  The keys that [compile_contract] uses
    hold no quote, so [str(KeyError(key))] is the key between quotes. *)
Definition getitem (v : json) (key : str) : result json :=
  match v with
  | JObject fields =>
      match assoc key fields with
      | Some x => inr x
      | None => inl (Raised KeyError (py "'" ++ key ++ py "'"))
      end
  | _ => inl (Raised TypeError (subscript_error_text v))
  end.

(** [list(v.keys())] *)
Definition keys (v : json) : result (list str) :=
  match v with
  | JObject fields => inr (map fst fields)
  | _ => inl (Raised AttributeError (keys_error_text v))
  end.

Definition compile_request_of (src : str) : compile_request :=
  {| language := py "Solidity";
     source_name := py "Contract.sol";
     content := src;
     output_selection :=
       [py "abi"; py "metadata"; py "evm.bytecode"; py "evm.sourceMap"];
     remappings := [py "@openzeppelin=" ++ OPENZEPPELIN_PATH];
     solc_version := py "0.8.20";
     allow_paths := [OPENZEPPELIN_PATH] |}.

Definition bind_result (A B : Type) (r : result A) (k : A -> result B)
  : result B :=
  match r with inl e => inl e | inr a => k a end.

(** The body of the [try] block. *)
Definition compile_body (src : str) : result compile_result :=
  bind_result (compile_standard (compile_request_of src)) (fun compiled_sol =>
  bind_result (getitem compiled_sol (py "contracts")) (fun contracts =>
  bind_result (getitem contracts (py "Contract.sol")) (fun contract_data =>
  bind_result (keys contract_data) (fun names =>
  bind_result (item_first names) (fun contract_name =>
  bind_result (getitem contract_data contract_name) (fun contract_info =>
  bind_result (getitem contract_info (py "abi")) (fun the_abi =>
  bind_result (getitem contract_info (py "evm")) (fun evm =>
  bind_result (getitem evm (py "bytecode")) (fun bc =>
  bind_result (getitem bc (py "object")) (fun obj =>
  inr {| abi := the_abi; bytecode := obj |})))))))))).

Definition compile_contract (request_code : str)
  : outcome compile_result :=
  let request_code := remove_spdx request_code in
  let request_code := remove_comments request_code in
  match compile_body request_code with
  | inr r => Returned r
  | inl e => RaisedHTTP (HTTPException 500 (exn_text e))
  end.

End Compilation.

(** ** The prompt and the compiler output, as the specification words them *)

(** The example contract of the prompt, as the model is to read it. *)
Definition example_contract : str :=
  unlines
    [ py "```solidity";
      py "pragma solidity ^0.8.20;";
      py "";
      py "import " ++ quoted "@openzeppelin/contracts/token/ERC20/ERC20.sol" ++ py ";";
      py "import " ++ quoted "@openzeppelin/contracts/access/Ownable.sol" ++ py ";";
      py "";
      py "contract MyToken is ERC20, Ownable {";
      py "    constructor()";
      py "        ERC20(" ++ quoted "MyToken" ++ py ", " ++ quoted "MTK" ++ py ")";
      py "        Ownable(msg.sender)";
      py "    {";
      py "    }";
      py "";
      py "    function mint(address to, uint256 amount) public onlyOwner {";
      py "        _mint(to, amount);";
      py "    }";
      py "}";
      py "```" ].

(** The fixed text of the prompt, up to the description. *)
Definition prompt_head : str :=
  unlines
    [ py "";
      py "You are a blockchain developer. You have following simple token contract example." ]
  ++ example_contract
  ++ unlines
       [ py "";
         py "Create a Solidity smart contract with the following description: " ].

(** The requests sent to the language model, in a trace. *)
Definition llm_calls (tr : list event) : list llm_request :=
  flat_map (fun ev => match ev with MessagesCreate r => [r] | Printed _ => [] end) tr.

(** The compiler output lists no contract for the file [Contract.sol]:
    it has no entry [contracts], or that entry has no entry for the file,
    or the file's entry is empty. *)
Definition declares_no_contract (compiled_sol : json) : bool :=
  match compiled_sol with
  | JObject fields =>
      match assoc (py "contracts") fields with
      | None => true
      | Some (JObject files) =>
          match assoc (py "Contract.sol") files with
          | None => true
          | Some (JObject []) => true
          | Some _ => false
          end
      | Some _ => false
      end
  | _ => false
  end.

(** ** The sanitizer as the specification words it

    Section 4.2 of the specification describes the sanitizer line by
    line: a standalone licence line goes, and every line loses its text
    from the first [//] on.  [sanitize_spec] follows these words; it is
    what [sanitize] is compared with. *)

(** The text of a line before its first [//]. *)
Fixpoint cut_comment (l : str) : str :=
  if starts_with slashes l then []
  else match l with
       | [] => []
       | c :: l' => c :: cut_comment l'
       end.

Definition clean_line (l : str) : str :=
  if str_eqb l spdx_line then [] else cut_comment l.

(** [s.split("\\n")] *)
Definition lines (s : str) : list str := split [nl] s.

Definition sanitize_spec (src : str) : str :=
  join_lines (map clean_line (lines src)).

(** What the licence pass leaves of a line that is the licence comment
    and nothing else, or that does not hold it. *)
Definition licence_removed (l : str) : str :=
  if str_eqb l spdx_line then [] else l.

(** A line that is the licence comment and nothing else, or that holds no
    occurrence of it. *)
Definition spdx_standalone_or_absent (l : str) : bool :=
  forallb not_nl l && (str_eqb l spdx_line || negb (contains spdx_line l)).

(** ** Predicates of the proofs *)

(** [pat] occurs nowhere in [s]. *)
Definition no_occ (pat s : str) : Prop := forall i, occ_at pat s i = false.

(** Every match of [m] lies within one line. *)
Definition within_line (m : matcher) : Prop :=
  forall s n, m s = Some n -> forallb not_nl (firstn n s) = true.

(** ** Collaborators for examples *)

(** A compiler that rejects every source. *)
Definition solc_rejects : compile_request -> result json :=
  fun _ => inl (Raised CollaboratorError
                  (py "ParserError: Expected ';' but got '}'")).

(** A compiler that accepts every source and finds no contract in it. *)
Definition solc_finds_nothing : compile_request -> result json :=
  fun _ =>
    inr (JObject
           [(py "sources",
             JObject [(py "Contract.sol", JObject [(py "id", JNumber (py "0"))])])]).

(** A compiler that finds the contracts [A] and [B] in every source. *)
Definition solc_finds_two : compile_request -> result json :=
  fun _ =>
    let contract (bin : string) :=
      JObject
        [(py "abi", JArray []);
         (py "evm", JObject [(py "bytecode", JObject [(py "object", JString (py bin))])])] in
    inr (JObject
           [(py "contracts",
             JObject
               [(py "Contract.sol",
                 JObject [(py "A", contract "6080"%string);
                          (py "B", contract "6040"%string)])])]).

Definition runtime_text : json -> str := fun _ => py "not a dictionary".

(** A language model that answers every prompt with one fenced block. *)
Definition llm_answers : llm_request -> result llm_response :=
  fun _ =>
    inr [TextBlock (py "Here it is:
```solidity
contract T { }
```
It does nothing.
")].

(** A language model whose call fails. *)
Definition llm_fails : llm_request -> result llm_response :=
  fun _ => inl (Raised CollaboratorError (py "Connection error.")).

(** ** Further predicates and example collaborators *)

(** [sep.join(parts)] *)
Fixpoint join_with (sep : str) (parts : list str) : str :=
  match parts with
  | [] => []
  | part :: parts' =>
      match parts' with
      | [] => part
      | _ :: _ => part ++ sep ++ join_with sep parts'
      end
  end.

(** [a] is [b] with some of its characters deleted. *)
Inductive subseq : str -> str -> Prop :=
| subseq_nil : subseq [] []
| subseq_skip (c : char) (a b : str) : subseq a b -> subseq a (c :: b)
| subseq_take (c : char) (a b : str) : subseq a b -> subseq (c :: a) (c :: b).

(** A compiler whose output for the contract [A] has no interface. *)
Definition solc_without_abi : compile_request -> result json :=
  fun _ =>
    inr (JObject
           [(py "contracts",
             JObject
               [(py "Contract.sol",
                 JObject
                   [(py "A",
                     JObject
                       [(py "evm",
                         JObject
                           [(py "bytecode",
                             JObject [(py "object", JString (py "6080"))])])])])])]).

(** A language model that answers with whitespace only. *)
Definition llm_blank : llm_request -> result llm_response :=
  fun _ => inr [TextBlock [32; 10; 32]%N].

(** The first line of the prompt. *)
Definition prompt_intro : str :=
  py "You are a blockchain developer. You have following simple token contract example.".

(** [t] is [s] trimmed: [s] without the whitespace at its two ends,
    and with nothing else taken off. *)
Definition trim_of (s t : str) : Prop :=
  (exists l r,
      s = l ++ t ++ r
      /\ forallb isspace l = true /\ forallb isspace r = true)
  /\ (forall c t', t = c :: t' -> isspace c = false)
  /\ (forall c t', t = t' ++ [c] -> isspace c = false).

(** The diagnostic of a compiler that warns and finds no contract. *)
Definition licence_warning : str :=
  py "Warning: SPDX license identifier not provided in source file.".

(** A compiler that accepts every source with a warning and finds no
    contract in it: its output has the diagnostic under [errors] and no
    entry [contracts]. *)
Definition solc_warns_nothing_found : compile_request -> result json :=
  fun _ =>
    inr (JObject
           [(py "errors",
             JArray
               [JObject
                  [(py "severity", JString (py "warning"));
                   (py "formattedMessage", JString licence_warning)]]);
            (py "sources",
             JObject [(py "Contract.sol", JObject [(py "id", JNumber (py "0"))])])]).

(** * Properties *)

(** ** Prefixes and occurrences *)

Lemma strip_prefix_Some (pat s r : str) :
  strip_prefix pat s = Some r -> s = pat ++ r.
Proof.
  revert s; induction pat as [|p pat IH]; intros s H; simpl in *.
  - now inversion H.
  - destruct s as [|c s]; [discriminate|].
    destruct (N.eqb_spec p c) as [->|]; [|discriminate].
    now rewrite (IH _ H).
Qed.

Lemma strip_prefix_app (pat r : str) : strip_prefix pat (pat ++ r) = Some r.
Proof.
  induction pat as [|p pat IH]; simpl; [reflexivity|].
  now rewrite N.eqb_refl.
Qed.

Lemma starts_with_true (pat s : str) :
  starts_with pat s = true <-> exists r, s = pat ++ r.
Proof.
  unfold starts_with; split.
  - destruct (strip_prefix pat s) as [r|] eqn:E; [|discriminate].
    intros _; exists r; now apply strip_prefix_Some.
  - intros [r ->]; now rewrite strip_prefix_app.
Qed.

Lemma starts_with_app (pat r : str) : starts_with pat (pat ++ r) = true.
Proof. apply starts_with_true; now exists r. Qed.

Lemma starts_with_cons (p c : char) (pat s : str) :
  starts_with (p :: pat) (c :: s) = (p =? c)%N && starts_with pat s.
Proof. unfold starts_with; simpl; now destruct (p =? c)%N. Qed.

Lemma starts_with_nil_r (p : char) (pat : str) : starts_with (p :: pat) [] = false.
Proof. reflexivity. Qed.

Lemma skipn_take_while (p : char -> bool) (s : str) :
  skipn (length (take_while p s)) s = drop_while p s.
Proof.
  induction s as [|c s IH]; simpl; [reflexivity|].
  destruct (p c); simpl; [exact IH | reflexivity].
Qed.

Lemma take_drop_while (p : char -> bool) (s : str) :
  take_while p s ++ drop_while p s = s.
Proof.
  induction s as [|c s IH]; simpl; [reflexivity|].
  destruct (p c); simpl; [now rewrite IH | reflexivity].
Qed.

Lemma take_while_all (p : char -> bool) (s : str) :
  forallb p (take_while p s) = true.
Proof.
  induction s as [|c s IH]; simpl; [reflexivity|].
  destruct (p c) eqn:E; simpl; [now rewrite E | reflexivity].
Qed.

Lemma length_drop_while (p : char -> bool) (s : str) :
  length (drop_while p s) <= length s.
Proof.
  induction s as [|c s IH]; simpl; [lia|].
  destruct (p c); simpl; lia.
Qed.

(** ** The scan of [re.sub] *)

Lemma re_sub_from_skipn (m : matcher) (k : nat) (s : str) :
  re_sub_from m k s = re_sub m (skipn k s).
Proof.
  revert k; induction s as [|c s IH]; intros [|k]; try reflexivity.
  simpl; apply IH.
Qed.

Lemma re_sub_nil (m : matcher) : re_sub m [] = [].
Proof. reflexivity. Qed.

Lemma re_sub_cons (m : matcher) (c : char) (s : str) :
  re_sub m (c :: s) =
  match m (c :: s) with
  | Some (S n) => re_sub m (skipn n s)
  | _ => c :: re_sub m s
  end.
Proof.
  unfold re_sub at 1; simpl.
  destruct (m (c :: s)) as [[|n]|]; try reflexivity.
  apply re_sub_from_skipn.
Qed.

(** The equations of the two substitutions of the sanitizer. *)

Lemma remove_spdx_cons (c : char) (s : str) :
  remove_spdx (c :: s) =
  if starts_with spdx_line (c :: s)
  then remove_spdx (skipn (length spdx_line) (c :: s))
  else c :: remove_spdx s.
Proof.
  unfold remove_spdx; rewrite re_sub_cons; unfold m_literal.
  destruct (starts_with spdx_line (c :: s)); reflexivity.
Qed.

Lemma remove_comments_cons (c : char) (s : str) :
  remove_comments (c :: s) =
  if starts_with slashes (c :: s)
  then remove_comments (drop_while not_nl (skipn 2 (c :: s)))
  else c :: remove_comments s.
Proof.
  unfold remove_comments; rewrite re_sub_cons; unfold m_literal_dotstar, starts_with.
  destruct (strip_prefix slashes (c :: s)) as [r|] eqn:E; [|reflexivity].
  apply strip_prefix_Some in E.
  change (slashes ++ r) with (slash :: slash :: r) in E.
  injection E as -> ->.
  change (length slashes) with 2; cbn [Nat.add skipn].
  now rewrite skipn_take_while.
Qed.

(** ** Line structure *)

Lemma count_char_app (c : char) (a b : str) :
  count_char c (a ++ b) = count_char c a + count_char c b.
Proof. unfold count_char; now rewrite filter_app, length_app. Qed.

Lemma count_nl_none (s : str) :
  forallb not_nl s = true -> count_char nl s = 0.
Proof.
  unfold count_char; induction s as [|c s IH]; cbn [filter forallb];
    [reflexivity|].
  intros H; apply andb_prop in H as [Hc Hs].
  unfold not_nl in Hc; rewrite N.eqb_sym in Hc.
  destruct (nl =? c)%N; [discriminate | now apply IH].
Qed.

Lemma firstn_take_while (p : char -> bool) (s : str) :
  firstn (length (take_while p s)) s = take_while p s.
Proof.
  induction s as [|c s IH]; simpl; [reflexivity|].
  destruct (p c); simpl; [now rewrite IH | reflexivity].
Qed.

Lemma m_literal_within_line (lit : str) :
  forallb not_nl lit = true -> within_line (m_literal lit).
Proof.
  intros Hlit s n; unfold m_literal.
  destruct (starts_with lit s) eqn:E; [|discriminate].
  intros [= <-]; apply starts_with_true in E as [r ->].
  rewrite firstn_app, Nat.sub_diag, firstn_all; simpl.
  now rewrite app_nil_r.
Qed.

Lemma m_literal_dotstar_within_line (lit : str) :
  forallb not_nl lit = true -> within_line (m_literal_dotstar lit).
Proof.
  intros Hlit s n; unfold m_literal_dotstar.
  destruct (strip_prefix lit s) as [r|] eqn:E; [|discriminate].
  intros [= <-]; apply strip_prefix_Some in E as ->.
  rewrite firstn_app.
  replace (length lit + length (take_while not_nl r) - length lit)
    with (length (take_while not_nl r)) by lia.
  rewrite firstn_all2 by lia.
  rewrite firstn_take_while, forallb_app, Hlit; simpl.
  apply take_while_all.
Qed.

Lemma re_sub_count_nl (m : matcher) :
  within_line m ->
  forall s, count_char nl (re_sub m s) = count_char nl s.
Proof.
  intros Hm s.
  remember (length s) as n eqn:Hn.
  assert (Hle : length s <= n) by lia; clear Hn.
  revert s Hle; induction n as [|n IH]; intros [|c s] Hle;
    try reflexivity; simpl in Hle; [lia|].
  rewrite re_sub_cons.
  destruct (m (c :: s)) as [[|k]|] eqn:E.
  - change (c :: re_sub m s) with ([c] ++ re_sub m s).
    change (c :: s) with ([c] ++ s).
    rewrite !count_char_app, IH by lia; reflexivity.
  - apply Hm in E.
    rewrite IH by (rewrite length_skipn; lia).
    rewrite <- (firstn_skipn (S k) (c :: s)) at 1.
    rewrite count_char_app, (count_nl_none _ E); reflexivity.
  - change (c :: re_sub m s) with ([c] ++ re_sub m s).
    change (c :: s) with ([c] ++ s).
    rewrite !count_char_app, IH by lia; reflexivity.
Qed.

(** C10: the sanitizer keeps the line structure: its output has exactly
    as many line feeds as its input. *)
Theorem sanitize_preserves_newlines (src : str) :
  count_char nl (sanitize src) = count_char nl src.
Proof.
  unfold sanitize, remove_comments, remove_spdx.
  rewrite re_sub_count_nl by (now apply m_literal_dotstar_within_line).
  apply re_sub_count_nl; now apply m_literal_within_line.
Qed.

(** ** Text without an occurrence of a pattern *)

Lemma occ_at_0 (pat s : str) : occ_at pat s 0 = starts_with pat s.
Proof. reflexivity. Qed.

Lemma occ_at_S (pat : str) (c : char) (s : str) (i : nat) :
  occ_at pat (c :: s) (S i) = occ_at pat s i.
Proof. reflexivity. Qed.

Lemma no_occ_nil (p : char) (pat : str) : no_occ (p :: pat) [].
Proof. intros i; unfold occ_at; now rewrite skipn_nil. Qed.

Lemma no_occ_cons (pat : str) (c : char) (s : str) :
  no_occ pat (c :: s) <-> starts_with pat (c :: s) = false /\ no_occ pat s.
Proof.
  split.
  - intros H; split; [exact (H 0) | intros i; exact (H (S i))].
  - intros [H0 H] [|i]; [exact H0 | exact (H i)].
Qed.

Lemma starts_with_weaken (pat rest s : str) :
  starts_with pat s = false -> starts_with (pat ++ rest) s = false.
Proof.
  intros H; destruct (starts_with (pat ++ rest) s) eqn:E; [|reflexivity].
  apply starts_with_true in E as [r ->].
  now rewrite <- app_assoc, starts_with_app in H.
Qed.

Lemma no_occ_weaken (pat rest s : str) :
  no_occ pat s -> no_occ (pat ++ rest) s.
Proof. intros H i; apply starts_with_weaken, H. Qed.

Lemma re_sub_literal_id (lit s : str) :
  no_occ lit s -> re_sub (m_literal lit) s = s.
Proof.
  induction s as [|c s IH]; [reflexivity|].
  intros H; apply no_occ_cons in H as [H0 H].
  assert (E : m_literal lit (c :: s) = None)
    by (unfold m_literal; now rewrite H0).
  now rewrite re_sub_cons, E, IH.
Qed.

Lemma re_sub_literal_dotstar_id (lit s : str) :
  no_occ lit s -> re_sub (m_literal_dotstar lit) s = s.
Proof.
  induction s as [|c s IH]; [reflexivity|].
  intros H; apply no_occ_cons in H as [H0 H].
  assert (E : m_literal_dotstar lit (c :: s) = None).
  { unfold m_literal_dotstar; unfold starts_with in H0.
    now destruct (strip_prefix lit (c :: s)). }
  now rewrite re_sub_cons, E, IH.
Qed.

(** What [remove_comments] returns holds no [//]. *)

Lemma remove_comments_head (s : str) :
  starts_with [slash] s = false ->
  starts_with [slash] (remove_comments s) = false.
Proof.
  destruct s as [|c s]; [reflexivity|].
  rewrite starts_with_cons, andb_true_r; intros Hc.
  rewrite remove_comments_cons.
  change slashes with [slash; slash].
  rewrite (starts_with_cons slash c), Hc; cbn [andb].
  now rewrite starts_with_cons, Hc.
Qed.

Lemma remove_comments_no_slashes (s : str) :
  no_occ slashes (remove_comments s).
Proof.
  remember (length s) as n eqn:Hn.
  assert (Hle : length s <= n) by lia; clear Hn.
  revert s Hle; induction n as [|n IH]; intros [|c s] Hle;
    try (apply (no_occ_nil slash [slash])); simpl in Hle; [lia|].
  rewrite remove_comments_cons.
  destruct (starts_with slashes (c :: s)) eqn:E.
  - apply IH. change (skipn 2 (c :: s)) with (skipn 1 s).
    pose proof (length_drop_while not_nl (skipn 1 s)) as Hd.
    rewrite length_skipn in Hd; lia.
  - apply no_occ_cons; split; [|apply IH; lia].
    change slashes with [slash; slash] in *.
    rewrite starts_with_cons in *.
    destruct (slash =? c)%N; [|reflexivity].
    simpl in E |- *; now apply remove_comments_head.
Qed.

(** C7: the sanitizer is idempotent. *)
Theorem sanitize_idempotent (src : str) :
  sanitize (sanitize src) = sanitize src.
Proof.
  unfold sanitize at 1.
  pose proof (remove_comments_no_slashes (remove_spdx src)) as H.
  fold (sanitize src) in H.
  assert (Hs : remove_spdx (sanitize src) = sanitize src).
  { apply re_sub_literal_id.
    change spdx_line with (slashes ++ py " SPDX-License-Identifier: MIT").
    now apply no_occ_weaken. }
  rewrite Hs; now apply re_sub_literal_dotstar_id.
Qed.

(** ** The licence pass next to the comment pass *)

Lemma str_eqb_eq (a b : str) : str_eqb a b = true -> a = b.
Proof.
  revert b; induction a as [|x a IH]; intros [|y b] H; simpl in H;
    try discriminate; [reflexivity|].
  apply andb_prop in H as [Hx Hab].
  apply N.eqb_eq in Hx; subst; now rewrite (IH _ Hab).
Qed.

Lemma contains_false_no_occ (pat s : str) :
  contains pat s = false -> no_occ pat s.
Proof.
  unfold contains; intros H i.
  destruct (occ_at pat s i) eqn:E; [|reflexivity].
  rewrite <- H; symmetry; apply existsb_exists.
  destruct (Nat.le_gt_cases i (length s)) as [Hi|Hi].
  - exists i; split; [apply in_seq; lia | exact E].
  - exists (length s); split; [apply in_seq; lia|].
    unfold occ_at in *.
    now rewrite skipn_all2 in E by lia; rewrite skipn_all.
Qed.

Lemma starts_with_app_l (pat l rest : str) :
  starts_with pat l = true -> starts_with pat (l ++ rest) = true.
Proof.
  intros H; apply starts_with_true in H as [r ->].
  rewrite <- app_assoc; apply starts_with_app.
Qed.

(** A pattern without a line feed that matches at the head of a line
    followed by more text matches within the line. *)
Lemma starts_with_line (pat l rest : str) :
  forallb not_nl pat = true ->
  starts_with pat (l ++ nl :: rest) = true -> starts_with pat l = true.
Proof.
  revert l; induction pat as [|p pat IH]; intros l Hp H; [reflexivity|].
  cbn [forallb] in Hp; apply andb_prop in Hp as [Hp Hpat].
  destruct l as [|c l]; cbn [app] in H; rewrite starts_with_cons in *.
  - apply andb_prop in H as [H _]; apply N.eqb_eq in H; subst p.
    discriminate Hp.
  - apply andb_prop in H as [Hc H]; rewrite Hc; cbn [andb].
    now apply IH.
Qed.

Lemma drop_while_app_all (p : char -> bool) (r rest : str) :
  forallb p r = true -> drop_while p (r ++ rest) = drop_while p rest.
Proof.
  induction r as [|c r IH]; [reflexivity|]; cbn [forallb app drop_while].
  intros H; apply andb_prop in H as [-> Hr]; now apply IH.
Qed.

Lemma skipn_app_exact (a rest : str) : skipn (length a) (a ++ rest) = rest.
Proof. now rewrite skipn_app, skipn_all, Nat.sub_diag. Qed.

Lemma spdx_line_no_nl : forallb not_nl spdx_line = true.
Proof. reflexivity. Qed.

Lemma remove_spdx_licence (rest : str) :
  remove_spdx (spdx_line ++ rest) = remove_spdx rest.
Proof.
  pose proof (starts_with_app spdx_line rest) as H.
  pose proof (skipn_app_exact spdx_line rest) as Hs.
  destruct (spdx_line ++ rest) as [|c s] eqn:E; [discriminate E|].
  now rewrite remove_spdx_cons, H, Hs.
Qed.

Lemma remove_spdx_nl (rest : str) :
  remove_spdx (nl :: rest) = nl :: remove_spdx rest.
Proof. now rewrite remove_spdx_cons. Qed.

Lemma remove_spdx_line (l rest : str) :
  forallb not_nl l = true -> no_occ spdx_line l ->
  remove_spdx (l ++ nl :: rest) = l ++ nl :: remove_spdx rest.
Proof.
  induction l as [|c l IH]; intros Hl Hno; [apply remove_spdx_nl|].
  cbn [forallb] in Hl; apply andb_prop in Hl as [_ Hl].
  apply no_occ_cons in Hno as [H0 Hno].
  cbn [app]; rewrite remove_spdx_cons.
  destruct (starts_with spdx_line (c :: l ++ nl :: rest)) eqn:E.
  - apply (starts_with_line spdx_line (c :: l) rest spdx_line_no_nl) in E.
    congruence.
  - now rewrite IH.
Qed.

Lemma remove_comments_nl (rest : str) :
  remove_comments (nl :: rest) = nl :: remove_comments rest.
Proof. now rewrite remove_comments_cons. Qed.

Lemma remove_comments_line (l rest : str) :
  forallb not_nl l = true ->
  remove_comments (l ++ nl :: rest)
  = remove_comments l ++ nl :: remove_comments rest.
Proof.
  induction l as [|c l IH]; intros Hl; [apply remove_comments_nl|].
  pose proof Hl as Hcl.
  cbn [forallb] in Hl; apply andb_prop in Hl as [_ Hl].
  cbn [app]; rewrite !remove_comments_cons.
  destruct (starts_with slashes (c :: l)) eqn:E.
  - pose proof (starts_with_app_l slashes (c :: l) (nl :: rest) E) as E'.
    cbn [app] in E'; rewrite E'; clear E'.
    apply starts_with_true in E as [r E].
    change (slashes ++ r) with (slash :: slash :: r) in E.
    injection E as -> ->.
    cbn [forallb] in Hcl.
    apply andb_prop in Hcl as [_ Hcl]; apply andb_prop in Hcl as [_ Hr].
    cbn [skipn app].
    rewrite (drop_while_app_all not_nl r (nl :: rest) Hr).
    pose proof (drop_while_app_all not_nl r [] Hr) as Hd.
    rewrite app_nil_r in Hd; rewrite Hd.
    cbn [drop_while]; change (not_nl nl) with false; cbn iota.
    now rewrite remove_comments_nl.
  - destruct (starts_with slashes (c :: l ++ nl :: rest)) eqn:E'.
    + apply (starts_with_line slashes (c :: l) rest eq_refl) in E'.
      congruence.
    + now rewrite IH.
Qed.

Lemma spdx_line_cases (l : str) :
  spdx_standalone_or_absent l = true ->
  forallb not_nl l = true /\ (l = spdx_line \/ no_occ spdx_line l).
Proof.
  unfold spdx_standalone_or_absent; intros H.
  apply andb_prop in H as [Hl H]; split; [exact Hl|].
  apply orb_prop in H as [H|H].
  - left; now apply str_eqb_eq.
  - right; apply contains_false_no_occ.
    now destruct (contains spdx_line l).
Qed.

Lemma drop_while_all (p : char -> bool) (l : str) :
  forallb p l = true -> drop_while p l = [].
Proof.
  induction l as [|c l IH]; [reflexivity|]; cbn [forallb drop_while].
  intros H; apply andb_prop in H as [-> Hl]; now apply IH.
Qed.

Lemma remove_comments_cut (l : str) :
  forallb not_nl l = true -> remove_comments l = cut_comment l.
Proof.
  induction l as [|c l IH]; intros Hl; [reflexivity|].
  rewrite remove_comments_cons; cbn [cut_comment].
  destruct (starts_with slashes (c :: l)) eqn:E.
  - apply starts_with_true in E as [r E].
    change (slashes ++ r) with (slash :: slash :: r) in E.
    rewrite E in *; cbn [skipn forallb] in *.
    apply andb_prop in Hl as [_ Hl]; apply andb_prop in Hl as [_ Hl].
    now rewrite (drop_while_all _ _ Hl).
  - cbn [forallb] in Hl; apply andb_prop in Hl as [_ Hl].
    now rewrite IH.
Qed.

Lemma remove_comments_lines (ls : list str) :
  forallb (forallb not_nl) ls = true ->
  remove_comments (join_lines ls) = join_lines (map cut_comment ls).
Proof.
  induction ls as [|l ls IH]; [reflexivity|].
  cbn [forallb]; intros H; apply andb_prop in H as [Hl Hls].
  destruct ls as [|l2 ls]; [now apply remove_comments_cut|].
  change (join_lines (l :: l2 :: ls)) with (l ++ nl :: join_lines (l2 :: ls)).
  rewrite (remove_comments_line l _ Hl), (remove_comments_cut l Hl), (IH Hls).
  reflexivity.
Qed.

Lemma licence_removed_cases (l : str) :
  spdx_standalone_or_absent l = true ->
  forallb not_nl l = true
  /\ ((l = spdx_line /\ licence_removed l = [])
      \/ (no_occ spdx_line l /\ licence_removed l = l)).
Proof.
  intros H; apply spdx_line_cases in H as [Hnl H]; split; [exact Hnl|].
  unfold licence_removed.
  destruct (str_eqb l spdx_line) eqn:E.
  - left; split; [now apply str_eqb_eq | reflexivity].
  - right; split; [|reflexivity].
    destruct H as [->|H]; [discriminate E | exact H].
Qed.

(** On lines that hold the licence comment alone or not at all, the
    licence pass empties the licence lines and keeps the others. *)
Lemma remove_spdx_lines (ls : list str) :
  forallb spdx_standalone_or_absent ls = true ->
  remove_spdx (join_lines ls) = join_lines (map licence_removed ls).
Proof.
  induction ls as [|l ls IH]; [reflexivity|].
  cbn [forallb]; intros H; apply andb_prop in H as [Hl Hls].
  apply licence_removed_cases in Hl as [Hnl Hl].
  destruct ls as [|l2 ls].
  - cbn [map join_lines].
    destruct Hl as [[-> ->]|[Hno ->]]; [reflexivity|].
    now apply re_sub_literal_id.
  - specialize (IH Hls).
    change (join_lines (l :: l2 :: ls))
      with (l ++ nl :: join_lines (l2 :: ls)).
    change (join_lines (map licence_removed (l :: l2 :: ls)))
      with (licence_removed l
            ++ nl :: join_lines (map licence_removed (l2 :: ls))).
    destruct Hl as [[-> ->]|[Hno ->]].
    + now rewrite remove_spdx_licence, remove_spdx_nl, IH.
    + now rewrite (remove_spdx_line _ Hnl Hno), IH.
Qed.

Lemma licence_removed_no_nl (ls : list str) :
  forallb spdx_standalone_or_absent ls = true ->
  forallb (forallb not_nl) ls = true
  /\ forallb (forallb not_nl) (map licence_removed ls) = true.
Proof.
  induction ls as [|l ls IH]; [now split|].
  cbn [forallb map]; intros H; apply andb_prop in H as [Hl Hls].
  destruct (IH Hls) as [IH1 IH2]; rewrite IH1, IH2, !andb_true_r.
  apply licence_removed_cases in Hl as [Hnl [[_ ->]|[_ ->]]]; now split.
Qed.

Lemma cut_comment_licence_removed (l : str) :
  cut_comment (licence_removed l) = cut_comment l.
Proof.
  unfold licence_removed; destruct (str_eqb l spdx_line) eqn:E; [|reflexivity].
  now apply str_eqb_eq in E as ->.
Qed.

(** On a text in which every line either is the licence comment alone
    or holds no occurrence of it, the licence pass followed by the
    comment pass gives what the comment pass gives alone. *)
Theorem spdx_pass_redundant_on_standalone_lines (ls : list str) :
  forallb spdx_standalone_or_absent ls = true ->
  remove_comments (remove_spdx (join_lines ls))
  = remove_comments (join_lines ls).
Proof.
  intros H.
  destruct (licence_removed_no_nl ls H) as [Hnl Hnl'].
  rewrite (remove_spdx_lines ls H).
  rewrite (remove_comments_lines _ Hnl'), (remove_comments_lines _ Hnl).
  rewrite map_map; f_equal.
  apply map_ext; intros l; apply cut_comment_licence_removed.
Qed.

Lemma spdx_pass_redundant_on_standalone_lines_witness :
  let ls := [ py "// SPDX-License-Identifier: MIT";
              py "pragma solidity ^0.8.20; // version";
              py "contract A { }" ] in
  forallb spdx_standalone_or_absent ls = true
  /\ remove_comments (remove_spdx (join_lines ls))
     = remove_comments (join_lines ls).
Proof.
  split; [reflexivity|].
  apply spdx_pass_redundant_on_standalone_lines; reflexivity.
Defined.

(** C9: the licence pass is meant to be redundant next to the comment
    pass, and on a licence comment with a longer identifier it is not:
    the two passes leave the rest of the identifier, which the comment
    pass alone removes with the whole comment. *)
Theorem spdx_pass_not_redundant :
  let src := py "// SPDX-License-Identifier: MIT-0" in
  remove_comments (remove_spdx src) = py "-0"
  /\ remove_comments src = []
  /\ remove_comments (remove_spdx src) <> remove_comments src.
Proof.
  split; [reflexivity|]; split; [reflexivity|].
  vm_compute; discriminate.
Qed.

(** ** Occurrences by index *)

Lemma occ_at_beyond (p : char) (pat s : str) (i : nat) :
  length s <= i -> occ_at (p :: pat) s i = false.
Proof. intros H; unfold occ_at; now rewrite skipn_all2. Qed.

Lemma occ_at_app (pat x s : str) (i : nat) :
  occ_at pat (x ++ s) (length x + i) = occ_at pat s i.
Proof.
  unfold occ_at; rewrite skipn_app.
  rewrite skipn_all2 by lia.
  now replace (length x + i - length x) with i by lia.
Qed.

Lemma occ_at_app_0 (pat x s : str) :
  occ_at pat (x ++ pat ++ s) (length x) = true.
Proof.
  rewrite <- (Nat.add_0_r (length x)), occ_at_app, occ_at_0.
  apply starts_with_app.
Qed.

Lemma first_at_true (pat s : str) (i : nat) :
  first_at pat s i = true ->
  occ_at pat s i = true /\ forall j, j < i -> occ_at pat s j = false.
Proof.
  unfold first_at; intros H; apply andb_prop in H as [H0 H]; split; [exact H0|].
  intros j Hj; rewrite forallb_forall in H.
  specialize (H j); rewrite in_seq in H.
  apply negb_true_iff, H; lia.
Qed.

Lemma starts_with_strip_prefix (pat s : str) :
  starts_with pat s = false -> strip_prefix pat s = None.
Proof. unfold starts_with; now destruct (strip_prefix pat s). Qed.

(** ** [str.split] *)

Lemma split_from_skipn (sep : str) (k : nat) (s : str) :
  split_from sep k s = split_from sep 0 (skipn k s).
Proof.
  revert k; induction s as [|c s IH]; intros [|k]; try reflexivity.
  cbn [split_from skipn]; apply IH.
Qed.

Lemma split_no_occ (sep s : str) : no_occ sep s -> split sep s = [s].
Proof.
  unfold split; induction s as [|c s IH]; intros H; [reflexivity|].
  apply no_occ_cons in H as [H0 H]; specialize (IH H).
  cbn [split_from]; rewrite H0.
  destruct (split_from sep 0 s) as [seg segs].
  now injection IH as -> ->.
Qed.

Lemma split_first (p : char) (sep a r : str) :
  (forall i, i < length a -> occ_at (p :: sep) (a ++ (p :: sep) ++ r) i = false) ->
  split (p :: sep) (a ++ (p :: sep) ++ r) = a :: split (p :: sep) r.
Proof.
  unfold split; induction a as [|c a IH]; intros H.
  - cbn [app split_from].
    pose proof (starts_with_app (p :: sep) r) as Hs; cbn [app] in Hs.
    rewrite Hs, split_from_skipn.
    replace (length (p :: sep) - 1) with (length sep) by (simpl; lia).
    rewrite skipn_app_exact.
    now destruct (split_from (p :: sep) 0 r).
  - assert (IH' : (let (seg, segs) :=
                     split_from (p :: sep) 0 (a ++ (p :: sep) ++ r) in
                   seg :: segs)
                  = a :: (let (seg, segs) := split_from (p :: sep) 0 r in
                          seg :: segs)).
    { apply IH; intros i Hi; apply (H (S i)); simpl; lia. }
    assert (H0 : starts_with (p :: sep) (c :: a ++ (p :: sep) ++ r) = false).
    { apply (H 0); simpl; lia. }
    change ((c :: a) ++ (p :: sep) ++ r) with (c :: a ++ (p :: sep) ++ r).
    cbn [split_from]; rewrite H0.
    destruct (split_from (p :: sep) 0 (a ++ (p :: sep) ++ r)) as [seg segs].
    now injection IH' as -> ->.
Qed.

Lemma split_inhabited (sep s : str) :
  exists seg segs, split sep s = seg :: segs.
Proof.
  unfold split; destruct (split_from sep 0 s) as [seg segs].
  now exists seg, segs.
Qed.

Lemma last_cons_default (A : Type) (x y : A) (xs : list A) :
  last (y :: xs) x = last xs y.
Proof.
  revert x y; induction xs as [|z xs IH]; intros x y; [reflexivity|].
  change (last (y :: z :: xs) x) with (last (z :: xs) x).
  now rewrite !IH.
Qed.

Lemma item_last_cons (A : Type) (x : A) (xs : list A) :
  item_last (x :: xs) = inr (last xs x).
Proof.
  unfold item_last.
  replace (length (x :: xs) - 1) with (length xs) by (simpl; lia).
  assert (H : nth_error (x :: xs) (length xs) = Some (last xs x)).
  { revert x; induction xs as [|y xs IH]; intros x; [reflexivity|].
    cbn [length nth_error]; rewrite (IH y).
    now rewrite last_cons_default. }
  now rewrite H.
Qed.

(** ** [re.search] *)

Lemma re_search_none (A : Type) (m : str -> option A) (s : str) :
  (forall i, m (skipn i s) = None) -> re_search m s = None.
Proof.
  induction s as [|c s IH]; intros H; cbn [re_search];
    pose proof (H 0) as H0; cbn [skipn] in H0; rewrite H0; [reflexivity|].
  apply IH; intros i; exact (H (S i)).
Qed.

Lemma re_search_first (A : Type) (m : str -> option A) (k : nat) (s : str)
      (g : A) :
  m (skipn k s) = Some g ->
  (forall i, i < k -> m (skipn i s) = None) ->
  re_search m s = Some g.
Proof.
  revert s; induction k as [|k IH]; intros s Hk Hlt.
  - destruct s; cbn [re_search skipn] in *; now rewrite Hk.
  - destruct s as [|c s].
    + rewrite skipn_nil in Hk.
      specialize (Hlt 0 (Nat.lt_0_succ k)); cbn [skipn] in Hlt; congruence.
    + pose proof (Hlt 0 (Nat.lt_0_succ k)) as H0; cbn [skipn] in H0.
      cbn [re_search]; rewrite H0.
      apply IH; [exact Hk|].
      intros i Hi; apply (Hlt (S i)); lia.
Qed.

Lemma lazy_until_first (p : char) (close g r : str) :
  (forall i, i < length g ->
             occ_at (p :: close) (g ++ (p :: close) ++ r) i = false) ->
  lazy_until (p :: close) (g ++ (p :: close) ++ r) = Some (g, r).
Proof.
  induction g as [|c g IH]; intros H.
  - pose proof (strip_prefix_app (p :: close) r) as E; cbn [app] in E.
    cbn [app lazy_until]; now rewrite E.
  - assert (H0 : strip_prefix (p :: close) (c :: g ++ (p :: close) ++ r) = None).
    { apply starts_with_strip_prefix, (H 0); simpl; lia. }
    change ((c :: g) ++ (p :: close) ++ r) with (c :: g ++ (p :: close) ++ r).
    cbn [lazy_until]; rewrite H0, IH; [reflexivity|].
    intros i Hi; apply (H (S i)); simpl; lia.
Qed.

Lemma lazy_until_no_occ (close s : str) :
  no_occ close s -> lazy_until close s = None.
Proof.
  induction s as [|c s IH]; intros H.
  - pose proof (starts_with_strip_prefix _ _ (H 0)) as E; cbn [skipn] in E.
    unfold lazy_until; now rewrite E.
  - apply no_occ_cons in H as [H0 H].
    cbn [lazy_until]; rewrite (starts_with_strip_prefix _ _ H0).
    now rewrite IH.
Qed.

(** ** [str.strip] *)



Lemma rstrip_split (u : str) :
  exists w, u = rstrip u ++ w /\ forallb isspace w = true.
Proof.
  exists (rev (take_while isspace (rev u))); split.
  - unfold rstrip; rewrite <- rev_app_distr, take_drop_while.
    now rewrite rev_involutive.
  - rewrite forallb_forall; intros x Hx; apply in_rev in Hx.
    pose proof (take_while_all isspace (rev u)) as H.
    rewrite forallb_forall in H; now apply H.
Qed.

Lemma lstrip_split (s : str) :
  exists w, s = w ++ lstrip s /\ forallb isspace w = true.
Proof.
  exists (take_while isspace s); split;
    [symmetry; apply take_drop_while | apply take_while_all].
Qed.


Lemma strip_blank (s : str) : forallb isspace s = true -> strip s = [].
Proof.
  intros H; unfold strip, lstrip; now rewrite (drop_while_all _ _ H).
Qed.

(** What [strip] returns is a stretch of its argument between two runs
    of whitespace. *)
Lemma strip_split (s : str) :
  exists l r, s = l ++ strip s ++ r.
Proof.
  destruct (lstrip_split s) as (l & Hl & _).
  destruct (rstrip_split (lstrip s)) as (r & Hr & _).
  exists l, r; unfold strip; now rewrite <- Hr.
Qed.

Lemma drop_while_head (p : char -> bool) (s t : str) (c : char) :
  drop_while p s = c :: t -> p c = false.
Proof.
  induction s as [|x s IH]; [discriminate|]; cbn [drop_while].
  destruct (p x) eqn:E; [exact IH|].
  now intros [= <- _].
Qed.

(** [strip] trims: it takes the whitespace off both ends and nothing
    else. *)
Lemma strip_trim_of (s : str) : trim_of s (strip s).
Proof.
  destruct (lstrip_split s) as (l & Hl & Hlw).
  destruct (rstrip_split (lstrip s)) as (r & Hr & Hrw).
  fold (strip s) in Hr.
  repeat split.
  - exists l, r; repeat split; [now rewrite <- Hr | exact Hlw | exact Hrw].
  - intros c t Ht; rewrite Ht in Hr.
    apply drop_while_head with (s := s) (t := t ++ r); exact Hr.
  - intros c t Ht.
    apply drop_while_head with (s := rev (lstrip s)) (t := rev t).
    rewrite <- (rev_involutive (drop_while isspace (rev (lstrip s)))).
    fold (rstrip (lstrip s)); fold (strip s).
    now rewrite Ht, rev_app_distr.
Qed.

(** ** [parse_llm_output] *)

Lemma split_first_fence (a r : str) :
  (forall i, i < length a -> occ_at fence (a ++ fence ++ r) i = false) ->
  split fence (a ++ fence ++ r) = a :: split fence r.
Proof. exact (@split_first 96%N (py "``") a r). Qed.

Lemma lazy_until_first_fence (g r : str) :
  (forall i, i < length g -> occ_at fence (g ++ fence ++ r) i = false) ->
  lazy_until fence (g ++ fence ++ r) = Some (g, r).
Proof. exact (@lazy_until_first 96%N (py "``") g r). Qed.

(** What [parse_llm_output] returns, from the parts of the split. *)
Lemma parse_llm_output_parts (output seg : str) (segs : list str) :
  split fence output = seg :: segs ->
  parse_llm_output output =
  inr (match re_search m_solidity_block output with
       | Some g => strip g
       | None => []
       end, strip seg, strip (last segs seg)).
Proof.
  intros H; unfold parse_llm_output; rewrite H.
  cbn [item_first]; now rewrite item_last_cons.
Qed.

Lemma no_fence_no_block (s : str) :
  no_occ fence s -> re_search m_solidity_block s = None.
Proof.
  intros H; apply re_search_none; intros i.
  unfold m_solidity_block.
  assert (Hi : starts_with solidity_tag (skipn i s) = false).
  { change solidity_tag with (fence ++ py "solidity").
    apply starts_with_weaken, H. }
  now rewrite (starts_with_strip_prefix _ _ Hi).
Qed.

Lemma parse_llm_output_returns (output : str) :
  exists c f l, parse_llm_output output = inr (c, f, l).
Proof.
  destruct (split_inhabited fence output) as (seg & segs & Hparts).
  rewrite (parse_llm_output_parts _ Hparts); now eexists _, _, _.
Qed.

(** C4: a reply without any fence comes back whole, trimmed, as both
    explanations, with no code. *)
Theorem parse_without_fence (output : str) :
  contains fence output = false ->
  parse_llm_output output = inr ([], strip output, strip output).
Proof.
  intros H; apply contains_false_no_occ in H.
  rewrite (parse_llm_output_parts output (split_no_occ H)).
  now rewrite (no_fence_no_block H).
Qed.

Lemma parse_without_fence_witness :
  contains fence (py "  I cannot write that contract. ") = false
  /\ parse_llm_output (py "  I cannot write that contract. ")
     = inr ([], py "I cannot write that contract.",
            py "I cannot write that contract.").
Proof.
  split; [reflexivity|].
  exact (parse_without_fence (py "  I cannot write that contract. ") eq_refl).
Defined.

Lemma in_positions (p : char) (pat s : str) (i : nat) :
  In i (positions (p :: pat) s) <-> occ_at (p :: pat) s i = true.
Proof.
  unfold positions; rewrite filter_In, in_seq; split; [tauto|].
  intros H; split; [|exact H].
  destruct (Nat.le_gt_cases (length s) i) as [Hi|Hi]; [|lia].
  now rewrite occ_at_beyond in H.
Qed.

Lemma positions_NoDup (pat s : str) : NoDup (positions pat s).
Proof. apply NoDup_filter, seq_NoDup. Qed.

Lemma two_elements (l : list nat) (x y z : nat) :
  NoDup l -> length l = 2 -> In x l -> In y l -> x <> y -> In z l ->
  z = x \/ z = y.
Proof.
  destruct l as [|u [|v [|w l]]]; try discriminate; intros _ _.
  simpl; intuition congruence.
Qed.

(** With exactly two fences in [a ++ fence ++ b ++ fence ++ c], the
    fences are the two that are written. *)
Lemma two_fences (a b c : str) (i : nat) :
  length (positions fence (a ++ fence ++ b ++ fence ++ c)) = 2 ->
  occ_at fence (a ++ fence ++ b ++ fence ++ c) i = true ->
  i = length a \/ i = length a + length fence + length b.
Proof.
  intros H2 Hi.
  apply two_elements
    with (l := positions fence (a ++ fence ++ b ++ fence ++ c));
    [apply positions_NoDup | exact H2 | | | |].
  - apply (in_positions 96%N), occ_at_app_0.
  - apply (in_positions 96%N).
    replace (a ++ fence ++ b ++ fence ++ c)
      with ((a ++ fence ++ b) ++ fence ++ c)
      by now rewrite <- !app_assoc.
    replace (length a + length fence + length b)
      with (length (a ++ fence ++ b)) by (rewrite !length_app; lia).
    apply occ_at_app_0.
  - change (length fence) with 3; lia.
  - now apply (in_positions 96%N).
Qed.

(** C5: when the reply is one block between two fences and holds no
    other fence, the first explanation is the text before the opening
    fence and the last explanation the text after the closing one, both
    trimmed. *)
Theorem parse_two_fences (a b c : str) :
  length (positions fence (a ++ fence ++ b ++ fence ++ c)) = 2 ->
  exists the_code f l,
    parse_llm_output (a ++ fence ++ b ++ fence ++ c) = inr (the_code, f, l)
    /\ f = strip a /\ trim_of a f
    /\ l = strip c /\ trim_of c l.
Proof.
  intros H2.
  assert (Hocc : forall i, i <> length a -> i <> length a + 3 + length b ->
                   occ_at fence (a ++ fence ++ b ++ fence ++ c) i = false).
  { intros i Ha Hb.
    destruct (occ_at fence (a ++ fence ++ b ++ fence ++ c) i) eqn:E;
      [|reflexivity].
    apply (two_fences a b c _ H2) in E.
    change (length fence) with 3 in E; lia. }
  assert (Hparts : split fence (a ++ fence ++ b ++ fence ++ c) = [a; b; c]).
  { rewrite (@split_first_fence a (b ++ fence ++ c))
      by (intros i Hi; apply Hocc; lia).
    rewrite (@split_first_fence b c).
    - rewrite split_no_occ; [reflexivity|].
      intros i.
      replace (occ_at fence c i)
        with (occ_at fence ((a ++ fence ++ b ++ fence) ++ c)
                (length (a ++ fence ++ b ++ fence) + i))
        by apply occ_at_app.
      rewrite <- !app_assoc; apply Hocc;
        rewrite !length_app; change (length fence) with 3; lia.
    - intros i Hi.
      replace (occ_at fence (b ++ fence ++ c) i)
        with (occ_at fence ((a ++ fence) ++ b ++ fence ++ c)
                (length (a ++ fence) + i))
        by apply occ_at_app.
      rewrite <- !app_assoc; apply Hocc;
        rewrite !length_app; change (length fence) with 3; lia. }
  rewrite (parse_llm_output_parts _ Hparts); cbn [last].
  eexists _, (strip a), (strip c); split; [reflexivity|].
  repeat split; try apply strip_trim_of.
Qed.

Lemma parse_two_fences_witness :
  let a := py "
 Here is the token.  " in
  let b := py "solidity contract T { } " in
  let c := py "   It mints on demand.
" in
  length (positions fence (a ++ fence ++ b ++ fence ++ c)) = 2
  /\ exists the_code,
       parse_llm_output (a ++ fence ++ b ++ fence ++ c)
       = inr (the_code, py "Here is the token.", py "It mints on demand.").
Proof.
  split; [reflexivity|].
  destruct (parse_two_fences
              (py "
 Here is the token.  ")
              (py "solidity contract T { } ")
              (py "   It mints on demand.
") eq_refl) as (the_code & f & l & Hp & Hf & _ & Hl & _).
  exists the_code; now rewrite Hp, Hf, Hl.
Defined.

Lemma existsb_false (A : Type) (f : A -> bool) (l : list A) (x : A) :
  existsb f l = false -> In x l -> f x = false.
Proof.
  intros H Hx; destruct (f x) eqn:E; [|reflexivity].
  rewrite <- H; symmetry; apply existsb_exists; now exists x.
Qed.

Lemma skipn_occ_at (pat s rest : str) (i : nat) :
  strip_prefix pat (skipn i s) = Some rest ->
  occ_at pat s i = true
  /\ forall k, occ_at fence rest k = occ_at fence s (i + length pat + k).
Proof.
  intros E; split.
  - unfold occ_at, starts_with; now rewrite E.
  - intros k; apply strip_prefix_Some in E.
    destruct (Nat.le_gt_cases i (length s)) as [Hi|Hi].
    + rewrite <- (firstn_skipn i s) at 1; rewrite E.
      replace (firstn i s ++ pat ++ rest) with ((firstn i s ++ pat) ++ rest)
        by now rewrite <- app_assoc.
      replace (i + length pat + k) with (length (firstn i s ++ pat) + k).
      * now rewrite occ_at_app.
      * rewrite length_app, length_firstn; lia.
    + rewrite skipn_all2 in E by lia.
      destruct pat; [|discriminate E].
      destruct rest; [|discriminate E].
      unfold occ_at; now rewrite skipn_nil, skipn_all2 by (simpl; lia).
Qed.

Lemma has_block_false (s : str) (i : nat) :
  has_block s = false -> m_solidity_block (skipn i s) = None.
Proof.
  intros H; unfold m_solidity_block.
  destruct (strip_prefix solidity_tag (skipn i s)) as [rest|] eqn:E;
    [|reflexivity].
  apply skipn_occ_at in E as [Hi Hk].
  rewrite lazy_until_no_occ; [reflexivity|].
  intros k; rewrite Hk.
  destruct (Nat.le_gt_cases (length s) (i + length solidity_tag + k))
    as [Hj|Hj]; [now apply occ_at_beyond|].
  assert (Hin : In i (seq 0 (S (length s)))) by (apply in_seq; lia).
  pose proof (existsb_false _ _ i H Hin) as Hb; cbv beta in Hb.
  rewrite Hi in Hb; cbn [andb] in Hb.
  apply (existsb_false _ _ (i + length solidity_tag + k) Hb).
  apply in_seq; lia.
Qed.

(** The converse readings of [re_search] and [lazy_until]. *)

Lemma re_search_none_inv (A : Type) (m : str -> option A) (s : str) (i : nat) :
  re_search m s = None -> m (skipn i s) = None.
Proof.
  revert i; induction s as [|c s IH]; intros i H; cbn [re_search] in H.
  - rewrite skipn_nil; now destruct (m []).
  - destruct (m (c :: s)) eqn:E; [discriminate|].
    destruct i as [|i]; [exact E | now apply IH].
Qed.

Lemma re_search_some_inv (A : Type) (m : str -> option A) (s : str) (g : A) :
  re_search m s = Some g ->
  exists k, m (skipn k s) = Some g /\ forall i, i < k -> m (skipn i s) = None.
Proof.
  induction s as [|c s IH]; intros H; cbn [re_search] in H.
  - exists 0; split; [|intros i Hi; lia].
    cbn [skipn]; destruct (m []); [exact H | discriminate H].
  - destruct (m (c :: s)) eqn:E.
    + exists 0; split; [|intros i Hi; lia].
      cbn [skipn]; now rewrite E.
    + destruct (IH H) as (k & Hk & Hlt).
      exists (S k); split; [exact Hk|].
      intros [|i] Hi; [exact E | apply Hlt; lia].
Qed.

Lemma lazy_until_some_inv (close s g r : str) :
  lazy_until close s = Some (g, r) ->
  s = g ++ close ++ r
  /\ forall i, i < length g -> occ_at close s i = false.
Proof.
  revert g; induction s as [|c s IH]; intros g H; cbn [lazy_until] in H.
  - destruct (strip_prefix close []) as [rest|] eqn:E; [|discriminate].
    injection H as <- <-; apply strip_prefix_Some in E.
    split; [exact E | intros i Hi; simpl in Hi; lia].
  - destruct (strip_prefix close (c :: s)) as [rest|] eqn:E.
    + injection H as <- <-; apply strip_prefix_Some in E.
      split; [exact E | intros i Hi; simpl in Hi; lia].
    + destruct (lazy_until close s) as [[g' r']|] eqn:El; [|discriminate].
      injection H as <- <-.
      destruct (IH g' eq_refl) as [Hs Hlt]; split; [now rewrite Hs at 1|].
      intros [|i] Hi.
      * unfold occ_at, starts_with; cbn [skipn]; now rewrite E.
      * rewrite occ_at_S; apply Hlt; simpl in Hi; lia.
Qed.

Lemma lazy_until_none_inv (close s : str) :
  lazy_until close s = None -> no_occ close s.
Proof.
  induction s as [|c s IH]; intros H i; cbn [lazy_until] in H.
  - destruct (strip_prefix close []) eqn:E; [discriminate|].
    unfold occ_at, starts_with; now rewrite skipn_nil, E.
  - destruct (strip_prefix close (c :: s)) eqn:E; [discriminate|].
    destruct (lazy_until close s) as [[g r]|]; [discriminate|].
    destruct i as [|i]; [|now apply IH].
    unfold occ_at, starts_with; cbn [skipn]; now rewrite E.
Qed.

Lemma first_at_intro (pat s : str) (i : nat) :
  occ_at pat s i = true ->
  (forall j, j < i -> occ_at pat s j = false) ->
  first_at pat s i = true.
Proof.
  intros H0 H; unfold first_at; rewrite H0; cbn [andb].
  apply forallb_forall; intros j Hj; apply in_seq in Hj.
  rewrite H by lia; reflexivity.
Qed.

(** No block is tried at [i]: the tag is not there, or no fence follows
    it. *)
Lemma no_block_at (s : str) (i : nat) :
  m_solidity_block (skipn i s) = None ->
  occ_at solidity_tag s i = true ->
  forall j, i + length solidity_tag <= j -> occ_at fence s j = false.
Proof.
  unfold m_solidity_block; intros H Hi j Hj.
  unfold occ_at at 1, starts_with in Hi.
  destruct (strip_prefix solidity_tag (skipn i s)) as [rest|] eqn:E;
    [|discriminate].
  destruct (skipn_occ_at _ _ _ E) as [_ Hk].
  destruct (lazy_until fence rest) as [[g r]|] eqn:El; [discriminate|].
  apply lazy_until_none_inv in El.
  replace j with (i + length solidity_tag + (j - (i + length solidity_tag)))
    by lia.
  rewrite <- Hk; apply El.
Qed.

(** A reply that holds a block has a first one, so a statement about
    the first block of a reply is about every reply that holds a block. *)
Lemma first_block_exists (output : str) :
  has_block output = true ->
  exists p body r,
    output = p ++ solidity_tag ++ body ++ fence ++ r
    /\ first_at solidity_tag output (length p) = true
    /\ first_at fence (body ++ fence ++ r) (length body) = true.
Proof.
  intros H; apply existsb_exists in H as (i & _ & H).
  apply andb_prop in H as [Hi H].
  apply existsb_exists in H as (j & Hj & Hfj); apply in_seq in Hj.
  destruct (re_search m_solidity_block output) as [g|] eqn:E.
  - apply re_search_some_inv in E as (k & Hk & Hlt).
    unfold m_solidity_block in Hk.
    destruct (strip_prefix solidity_tag (skipn k output)) as [rest|] eqn:Et;
      [|discriminate].
    destruct (lazy_until fence rest) as [[g' r]|] eqn:El; [|discriminate].
    injection Hk as ->.
    apply lazy_until_some_inv in El as [-> Hg].
    destruct (skipn_occ_at _ _ _ Et) as [Htag _].
    apply strip_prefix_Some in Et.
    assert (Hlen : k <= length output).
    { destruct (Nat.le_gt_cases k (length output)) as [Hle|Hgt]; [exact Hle|].
      rewrite skipn_all2 in Et by lia; discriminate Et. }
    assert (Hout : output
                   = firstn k output ++ solidity_tag ++ g ++ fence ++ r)
      by now rewrite <- Et, firstn_skipn.
    assert (Hp : length (firstn k output) = k)
      by (rewrite length_firstn; lia).
    exists (firstn k output), g, r; rewrite Hp.
    split; [exact Hout|]; split.
    + apply first_at_intro; [exact Htag|].
      intros i' Hi'.
      destruct (occ_at solidity_tag output i') eqn:Ei; [|reflexivity].
      pose proof (@no_block_at output i' (Hlt i' Hi') Ei
                    (k + length solidity_tag + length g)) as Hno.
      rewrite Hout in Hno at 1.
      replace (firstn k output ++ solidity_tag ++ g ++ fence ++ r)
        with ((firstn k output ++ solidity_tag ++ g) ++ fence ++ r) in Hno
        by now rewrite <- !app_assoc.
      replace (k + length solidity_tag + length g)
        with (length (firstn k output ++ solidity_tag ++ g)) in Hno
        by (rewrite !length_app, Hp; lia).
      rewrite occ_at_app_0 in Hno.
      rewrite !length_app, Hp in Hno.
      assert (false = true) by (symmetry; apply Hno; lia); discriminate.
    + apply first_at_intro; [apply occ_at_app_0 | exact Hg].
  - pose proof (@no_block_at output i
                  (@re_search_none_inv _ m_solidity_block output i E) Hi j)
      as Hno.
    rewrite Hno in Hfj by lia; discriminate.
Qed.

(** C3: when the reply holds a block opened by the tagged fence and
    closed by a fence, the code is the interior of the first such block,
    trimmed; when it holds none, the code is empty. *)
Theorem parse_code_field :
  (forall p body r : str,
      first_at solidity_tag
        (p ++ solidity_tag ++ body ++ fence ++ r) (length p) = true ->
      first_at fence (body ++ fence ++ r) (length body) = true ->
      exists f l,
        parse_llm_output (p ++ solidity_tag ++ body ++ fence ++ r)
        = inr (strip body, f, l))
  /\ (forall output : str,
         has_block output = false ->
         exists f l, parse_llm_output output = inr ([], f, l)).
Proof.
  split.
  - intros p body r Htag Hfence.
    apply first_at_true in Htag as [_ Htag].
    apply first_at_true in Hfence as [_ Hfence].
    destruct (split_inhabited fence (p ++ solidity_tag ++ body ++ fence ++ r))
      as (seg & segs & Hparts).
    rewrite (parse_llm_output_parts _ Hparts).
    rewrite (@re_search_first _ m_solidity_block (length p) _ body).
    + now eexists _, _.
    + rewrite skipn_app_exact; unfold m_solidity_block.
      rewrite strip_prefix_app.
      now rewrite (lazy_until_first_fence body r Hfence).
    + intros i Hi; unfold m_solidity_block.
      now rewrite (starts_with_strip_prefix _ _ (Htag i Hi)).
  - intros output H.
    destruct (split_inhabited fence output) as (seg & segs & Hparts).
    rewrite (parse_llm_output_parts _ Hparts).
    rewrite re_search_none by (intros i; now apply has_block_false).
    now eexists _, _.
Qed.

Lemma parse_code_field_witness :
  let p := py "Sure. " in
  let body := py "
contract T { }
" in
  let r := py " Done. ```js x```" in
  let plain := py "No code, only ``` one fence" in
  (first_at solidity_tag
     (p ++ solidity_tag ++ body ++ fence ++ r) (length p) = true
   /\ first_at fence (body ++ fence ++ r) (length body) = true
   /\ exists f l,
        parse_llm_output (p ++ solidity_tag ++ body ++ fence ++ r)
        = inr (py "contract T { }", f, l))
  /\ (has_block plain = false
      /\ exists f l, parse_llm_output plain = inr ([], f, l)).
Proof.
  split.
  - split; [reflexivity|]; split; [reflexivity|].
    apply (proj1 parse_code_field); reflexivity.
  - split; [reflexivity|].
    apply (proj2 parse_code_field); reflexivity.
Defined.

(** C8: [parse_llm_output] returns three strings for every reply and
    never raises; a reply without a block gives empty code, and a reply
    without a fence gives itself, trimmed, as both explanations. *)
Theorem parse_llm_output_total (output : str) :
  exists c f l,
    parse_llm_output output = inr (c, f, l)
    /\ (has_block output = false -> c = [])
    /\ (contains fence output = false ->
        f = strip output /\ l = strip output).
Proof.
  destruct (split_inhabited fence output) as (seg & segs & Hparts).
  rewrite (parse_llm_output_parts _ Hparts).
  eexists _, _, _; split; [reflexivity|]; split.
  - intros H.
    now rewrite re_search_none by (intros i; now apply has_block_false).
  - intros H; apply contains_false_no_occ, split_no_occ in H.
    rewrite H in Hparts; now injection Hparts as <- <-.
Qed.

Lemma parse_llm_output_total_witness :
  let output := py " plain words " in
  has_block output = false
  /\ contains fence output = false
  /\ exists c f l,
       parse_llm_output output = inr (c, f, l)
       /\ c = [] /\ f = strip output /\ l = strip output.
Proof.
  split; [reflexivity|]; split; [reflexivity|].
  destruct (parse_llm_output_total (py " plain words "))
    as (c & f & l & Hp & Hc & Hfl).
  exists c, f, l; split; [exact Hp|]; split; [now apply Hc|].
  now apply Hfl.
Defined.

(** ** The sanitizer of the code and the sanitizer of the specification *)

Lemma clean_line_cut (l : str) : clean_line l = cut_comment l.
Proof.
  unfold clean_line; destruct (str_eqb l spdx_line) eqn:E; [|reflexivity].
  now apply str_eqb_eq in E as ->.
Qed.

Lemma lines_cons (c : char) (s : str) :
  lines (c :: s) =
  if (nl =? c)%N then [] :: lines s
  else match lines s with
       | seg :: segs => (c :: seg) :: segs
       | [] => [[c]]
       end.
Proof.
  unfold lines, split; cbn [split_from].
  rewrite (starts_with_cons nl c [] s).
  change (starts_with [] s) with true; rewrite andb_true_r.
  cbn [length Nat.sub].
  destruct (nl =? c)%N; now destruct (split_from [nl] 0 s).
Qed.

Lemma join_lines_lines (s : str) : join_lines (lines s) = s.
Proof.
  induction s as [|c s IH]; [reflexivity|].
  rewrite lines_cons.
  destruct (split_inhabited [nl] s) as (seg & segs & Hs).
  unfold lines in *; rewrite Hs in *.
  destruct (nl =? c)%N eqn:E.
  - apply N.eqb_eq in E as <-.
    change (join_lines ([] :: seg :: segs)) with (nl :: join_lines (seg :: segs)).
    now rewrite IH.
  - destruct segs; cbn [join_lines app] in *; now rewrite IH.
Qed.

Lemma lines_no_nl (s : str) : forallb (forallb not_nl) (lines s) = true.
Proof.
  induction s as [|c s IH]; [reflexivity|].
  rewrite lines_cons.
  destruct (split_inhabited [nl] s) as (seg & segs & Hs).
  unfold lines in *; rewrite Hs in *.
  destruct (nl =? c)%N eqn:E; [exact IH|].
  cbn [forallb] in *; unfold not_nl at 1.
  rewrite N.eqb_sym, E; exact IH.
Qed.

(** The sanitizer of the code does to a text what the specification
    says whenever the licence comments of the text stand alone on their
    lines. *)
Lemma sanitize_meets_spec (src : str) :
  forallb spdx_standalone_or_absent (lines src) = true ->
  sanitize src = sanitize_spec src.
Proof.
  intros H; unfold sanitize, sanitize_spec.
  destruct (licence_removed_no_nl _ H) as [_ Hnl].
  rewrite <- (join_lines_lines src) at 1.
  rewrite (remove_spdx_lines _ H), (remove_comments_lines _ Hnl), map_map.
  f_equal; apply map_ext; intros l.
  now rewrite cut_comment_licence_removed, clean_line_cut.
Qed.

(** C6: a licence comment with a longer identifier is a comment that
    runs to the end of its line, and the sanitizer of the code leaves
    the rest of the identifier in the source, where the sanitizer of the
    specification leaves an empty line. *)
Theorem sanitize_leaves_licence_suffix :
  let src := join_lines [ py "// SPDX-License-Identifier: MIT-0";
                          py "pragma solidity ^0.8.20;";
                          py "contract A { }" ] in
  sanitize src = join_lines [ py "-0";
                              py "pragma solidity ^0.8.20;";
                              py "contract A { }" ]
  /\ sanitize_spec src = join_lines [ [];
                                      py "pragma solidity ^0.8.20;";
                                      py "contract A { }" ].
Proof. split; vm_compute; reflexivity. Qed.

(** ** [generate_contract] *)

Lemma format_prompt_template (description : str) :
  format prompt_template description
  = inr (prompt_head ++ description ++ [nl]).
Proof. vm_compute; reflexivity. Qed.

Lemma llm_calls_app (tr tr' : list event) :
  llm_calls (tr ++ tr') = llm_calls tr ++ llm_calls tr'.
Proof. apply flat_map_app. Qed.

Section GenerationProperties.

Variable anthropic_create : llm_request -> result llm_response.

(** C1: for every description, the prompt is the fixed text with the
    example contract, then the description as it is; the language
    model is called once, with a request whose one message, of the
    user, is that prompt; and the call returns the three fields of the
    parsed reply, or raises the error of the collaborator as
    [HTTPException] 500, never an error of parsing. *)
Theorem generate_contract_once (description : str) (tr : list event) :
  let prompt := prompt_head ++ description ++ [nl] in
  let req := {| model := py "claude-3-5-sonnet-20240620";
                max_tokens := 1024;
                temperature := 0;
                messages := [(py "user", prompt)] |} in
  format prompt_template description = inr prompt
  /\ exists out printed,
       generate_contract anthropic_create description tr
       = (out, tr ++ [Printed prompt; MessagesCreate req] ++ printed)
       /\ llm_calls (tr ++ [Printed prompt; MessagesCreate req] ++ printed)
          = llm_calls tr ++ [req]
       /\ match anthropic_create req with
          | inr (TextBlock text :: _) =>
              exists c f l,
                parse_llm_output (strip text) = inr (c, f, l)
                /\ out = Returned (GenerationResult c f l)
                /\ printed = [Printed (strip text)]
          | inr (OtherBlock cls :: _) =>
              exists e,
                block_text (OtherBlock cls) = inl e
                /\ out = RaisedHTTP (HTTPException 500 (exn_text e))
                /\ printed = []
          | inr [] =>
              out = RaisedHTTP (HTTPException 500 (exn_text index_error))
              /\ printed = []
          | inl e =>
              out = RaisedHTTP (HTTPException 500 (exn_text e))
              /\ printed = []
          end.
Proof.
  intros prompt req; split; [apply format_prompt_template|].
  unfold generate_contract, generate_smart_contract, messages_create.
  unfold bind, lift, emit, try_500, ret.
  rewrite format_prompt_template; fold prompt.
  change (llm_request_of prompt) with req.
  destruct (anthropic_create req) as [e|[|[text|cls] blocks]].
  - exists (RaisedHTTP (HTTPException 500 (exn_text e))), [].
    cbn [item_first]; rewrite <- app_assoc.
    repeat split; rewrite llm_calls_app; reflexivity.
  - exists (RaisedHTTP (HTTPException 500 (exn_text index_error))), [].
    cbn [item_first]; rewrite <- app_assoc.
    repeat split; rewrite llm_calls_app; reflexivity.
  - destruct (parse_llm_output_returns (strip text)) as (c & f & l & Hp).
    exists (Returned (GenerationResult c f l)), [Printed (strip text)].
    cbn [item_first block_text]; rewrite Hp, <- !app_assoc.
    split; [reflexivity|]; split.
    + rewrite llm_calls_app; reflexivity.
    + now exists c, f, l.
  - exists (RaisedHTTP
              (HTTPException 500
                 (py "'" ++ cls ++ py "' object has no attribute 'text'"))), [].
    cbn [item_first block_text]; rewrite <- app_assoc.
    split; [reflexivity|]; split.
    + rewrite llm_calls_app; reflexivity.
    + eexists; repeat split.
Qed.

End GenerationProperties.

(** ** [compile_contract] *)

Section CompilationProperties.

Variable compile_standard : compile_request -> result json.
Variable OPENZEPPELIN_PATH : str.
Variable subscript_error_text : json -> str.
Variable keys_error_text : json -> str.

Local Abbreviation get := (getitem subscript_error_text).
Local Abbreviation keys_of := (keys keys_error_text).
Local Abbreviation endpoint :=
  (compile_contract compile_standard OPENZEPPELIN_PATH
     subscript_error_text keys_error_text).

(** C2, as the code has it: when the compiler raises,
    [compile_contract] raises [HTTPException] 500 whose detail is the
    text of the compiler's exception; when the compiler returns an
    output that lists no contract for the file, it raises
    [HTTPException] 500 whose detail is the text of the lookup that
    failed; it raises nothing else; and what it returns has the
    interface and the bytecode of the first contract, both. *)
Theorem compile_contract_failure (src : str) :
  let req := compile_request_of OPENZEPPELIN_PATH (sanitize src) in
  (forall e,
      compile_standard req = inl e ->
      endpoint src = RaisedHTTP (HTTPException 500 (exn_text e)))
  /\ (forall compiled_sol,
         compile_standard req = inr compiled_sol ->
         declares_no_contract compiled_sol = true ->
         exists d,
           endpoint src = RaisedHTTP (HTTPException 500 d)
           /\ (d = py "'contracts'" \/ d = py "'Contract.sol'"
               \/ d = exn_text index_error))
  /\ (forall r,
         endpoint src = Returned r ->
         exists compiled_sol contracts contract_data name names info evm bc,
           compile_standard req = inr compiled_sol
           /\ get compiled_sol (py "contracts") = inr contracts
           /\ get contracts (py "Contract.sol") = inr contract_data
           /\ keys_of contract_data = inr (name :: names)
           /\ get contract_data name = inr info
           /\ get info (py "abi") = inr (abi r)
           /\ get info (py "evm") = inr evm
           /\ get evm (py "bytecode") = inr bc
           /\ get bc (py "object") = inr (bytecode r))
  /\ (forall h, endpoint src = RaisedHTTP h -> status_code h = 500%N)
  /\ (forall e, endpoint src <> Unhandled e).
Proof.
  intros req; unfold compile_contract, compile_body.
  fold (sanitize src); fold req.
  repeat split.
  - intros e He; now rewrite He.
  - intros compiled_sol Hc Hno; rewrite Hc; cbn [bind_result].
    destruct compiled_sol as [| | | | |fields]; try discriminate Hno.
    cbn [declares_no_contract getitem] in *.
    destruct (assoc (py "contracts") fields) as [contracts|];
      [|eexists; split; [reflexivity | now left]].
    destruct contracts as [| | | | |files]; try discriminate Hno.
    cbn [bind_result getitem].
    destruct (assoc (py "Contract.sol") files) as [contract_data|];
      [|eexists; split; [reflexivity | now right; left]].
    destruct contract_data as [| | | | |[|entry entries]];
      try discriminate Hno.
    eexists; split; [reflexivity | now right; right].
  - intros r.
    destruct (compile_standard req) as [e|compiled_sol];
      [discriminate|]; cbn [bind_result].
    destruct (getitem _ compiled_sol _) as [e|contracts] eqn:E1;
      [discriminate|]; cbn [bind_result].
    destruct (getitem _ contracts _) as [e|contract_data] eqn:E2;
      [discriminate|]; cbn [bind_result].
    destruct (keys _ contract_data) as [e|[|name names]] eqn:E3;
      [discriminate| |]; cbn [bind_result item_first]; [discriminate|].
    destruct (getitem _ contract_data name) as [e|info] eqn:E4;
      [discriminate|]; cbn [bind_result].
    destruct (getitem _ info (py "abi")) as [e|the_abi] eqn:E5;
      [discriminate|]; cbn [bind_result].
    destruct (getitem _ info (py "evm")) as [e|evm] eqn:E6;
      [discriminate|]; cbn [bind_result].
    destruct (getitem _ evm _) as [e|bc] eqn:E7;
      [discriminate|]; cbn [bind_result].
    destruct (getitem _ bc _) as [e|obj] eqn:E8;
      [discriminate|]; cbn [bind_result].
    intros [= <-]; cbn [abi bytecode].
    now exists compiled_sol, contracts, contract_data, name, names, info,
      evm, bc.
  - intros h.
    destruct (bind_result _ _) as [e|r]; [|discriminate].
    now intros [= <-].
  - intros e; now destruct (bind_result _ _).
Qed.

End CompilationProperties.

Lemma compile_contract_failure_witness :
  let src := py "contract A { // unfinished" in
  let path := py "/app/node_modules/@openzeppelin" in
  let run solc := compile_contract solc path runtime_text runtime_text src in
  let req := compile_request_of path (sanitize src) in
  (solc_rejects req
   = inl (Raised CollaboratorError (py "ParserError: Expected ';' but got '}'"))
   /\ run solc_rejects
      = RaisedHTTP (HTTPException 500 (py "ParserError: Expected ';' but got '}'")))
  /\ (exists compiled_sol,
         solc_finds_nothing req = inr compiled_sol
         /\ declares_no_contract compiled_sol = true
         /\ exists d,
              run solc_finds_nothing = RaisedHTTP (HTTPException 500 d)
              /\ (d = py "'contracts'" \/ d = py "'Contract.sol'"
                  \/ d = exn_text index_error))
  /\ (run solc_finds_two
      = Returned (CompileResult (JArray []) (JString (py "6080")))
      /\ exists info evm bc,
           getitem runtime_text info (py "abi") = inr (JArray [])
           /\ getitem runtime_text info (py "evm") = inr evm
           /\ getitem runtime_text evm (py "bytecode") = inr bc
           /\ getitem runtime_text bc (py "object") = inr (JString (py "6080")))
  /\ (run solc_finds_nothing = RaisedHTTP (HTTPException 500 (py "'contracts'"))
      /\ status_code (HTTPException 500 (py "'contracts'")) = 500%N).
Proof.
  intros src path run req.
  destruct (compile_contract_failure solc_rejects path runtime_text
              runtime_text src) as (Hraise & _).
  destruct (compile_contract_failure solc_finds_nothing path runtime_text
              runtime_text src) as (_ & Hnone & _ & Hstatus & _).
  destruct (compile_contract_failure solc_finds_two path runtime_text
              runtime_text src) as (_ & _ & Hfull & _).
  split; [split; [reflexivity | exact (Hraise _ eq_refl)]|].
  split.
  { eexists; split; [reflexivity|]; split; [reflexivity|].
    exact (Hnone _ eq_refl eq_refl). }
  split.
  { split; [reflexivity|].
    destruct (Hfull (CompileResult (JArray []) (JString (py "6080"))) eq_refl)
      as (_ & _ & _ & _ & _ & info & evm & bc & _ & _ & _ & _ & _ & H5 & H6
          & H7 & H8).
    now exists info, evm, bc. }
  split; [reflexivity | exact (Hstatus _ eq_refl)].
Defined.

(** C2, as stated, fails for a source without contracts: the compiler
    returns its diagnostic in an output without contracts, and the detail
    of the error is the text of the failed lookup, in which nothing of
    the diagnostic is left. *)
Lemma zero_contracts_detail_not_diagnostic :
  let src := py "pragma solidity ^0.8.20;" in
  let path := py "/app/node_modules/@openzeppelin" in
  let run := compile_contract solc_warns_nothing_found path runtime_text
               runtime_text src in
  (exists compiled_sol,
      solc_warns_nothing_found (compile_request_of path (sanitize src))
      = inr compiled_sol
      /\ declares_no_contract compiled_sol = true)
  /\ run = RaisedHTTP (HTTPException 500 (py "'contracts'"))
  /\ run <> RaisedHTTP (HTTPException 500 licence_warning)
  /\ contains licence_warning (py "'contracts'") = false.
Proof.
  split; [eexists; split; reflexivity|].
  split; [reflexivity|].
  split; [vm_compute; discriminate | reflexivity].
Qed.

(** ** The endpoints on example collaborators *)

Example generate_contract_answers :
  generate_contract llm_answers (py "a token") []
  = (Returned {| code := py "contract T { }";
                 first_explanation := py "Here it is:";
                 last_explanation := py "It does nothing." |},
     let prompt := prompt_head ++ py "a token" ++ [nl] in
     [ Printed prompt;
       MessagesCreate (llm_request_of prompt);
       Printed (py "Here it is:
```solidity
contract T { }
```
It does nothing.") ]).
Proof. vm_compute; reflexivity. Qed.

Example generate_contract_fails :
  fst (generate_contract llm_fails (py "a token") [])
  = RaisedHTTP (HTTPException 500 (py "Connection error.")).
Proof. vm_compute; reflexivity. Qed.

Example compile_contract_first_of_two :
  compile_contract solc_finds_two (py "/lib") runtime_text runtime_text
    (py "contract A { } contract B { }")
  = Returned {| abi := JArray []; bytecode := JString (py "6080") |}.
Proof. vm_compute; reflexivity. Qed.

Example sanitize_comments :
  sanitize (join_lines [ py "// SPDX-License-Identifier: MIT";
                         py "pragma solidity ^0.8.20; // version";
                         py "string u = " ++ quoted "http://x" ++ py ";";
                         py "contract A { } // end" ])
  = join_lines [ [];
                 py "pragma solidity ^0.8.20; ";
                 py "string u = " ++ [dquote] ++ py "http:";
                 py "contract A { } " ].
Proof. vm_compute; reflexivity. Qed.

Example parse_two_blocks :
  parse_llm_output (py "one ```solidity A ``` two ```solidity B ``` three")
  = inr (py "A", py "one", py "three").
Proof. vm_compute; reflexivity. Qed.

(** * Further properties of [main.py] *)

(** ** More on occurrences *)

Lemma no_occ_contains (pat s : str) : no_occ pat s -> contains pat s = false.
Proof.
  intros H; unfold contains.
  destruct (existsb (occ_at pat s) (seq 0 (S (length s)))) eqn:E;
    [|reflexivity].
  apply existsb_exists in E as (i & _ & Hi); now rewrite H in Hi.
Qed.

Lemma no_occ_app_r (p : char) (pat a b : str) :
  no_occ (p :: pat) (a ++ b) -> no_occ (p :: pat) b.
Proof. intros H i; rewrite <- (occ_at_app (p :: pat) a b i); apply H. Qed.

Lemma no_occ_app_l (p : char) (pat a b : str) :
  no_occ (p :: pat) (a ++ b) -> no_occ (p :: pat) a.
Proof.
  intros H i; destruct (occ_at (p :: pat) a i) eqn:E; [|reflexivity].
  destruct (Nat.le_gt_cases (length a) i) as [Hi|Hi];
    [now rewrite occ_at_beyond in E|].
  rewrite <- (H i); unfold occ_at in *.
  rewrite skipn_app; replace (i - length a) with 0 by lia.
  cbn [skipn]; now rewrite (starts_with_app_l _ _ b E).
Qed.

Lemma no_occ_strip (p : char) (pat s : str) :
  no_occ (p :: pat) s -> no_occ (p :: pat) (strip s).
Proof.
  intros H; destruct (strip_split s) as (l & r & Hs).
  rewrite Hs in H; apply no_occ_app_r in H; now apply no_occ_app_l in H.
Qed.

(** The lazy group stops at the first [close]: it holds none. *)
Lemma lazy_group_no_occ (p : char) (close s g r : str) :
  lazy_until (p :: close) s = Some (g, r) -> no_occ (p :: close) g.
Proof.
  intros H; apply lazy_until_some_inv in H as [Hs Hlt]; intros i.
  destruct (occ_at (p :: close) g i) eqn:E; [|reflexivity].
  destruct (Nat.le_gt_cases (length g) i) as [Hi|Hi];
    [now rewrite occ_at_beyond in E|].
  rewrite <- (Hlt i Hi), Hs; unfold occ_at in *.
  rewrite skipn_app; replace (i - length g) with 0 by lia.
  cbn [skipn]; now rewrite (starts_with_app_l _ _ _ E).
Qed.

Lemma fence_of_tag (s : str) (i : nat) :
  occ_at solidity_tag s i = true -> occ_at fence s i = true.
Proof.
  intros H; destruct (occ_at fence s i) eqn:E; [reflexivity|].
  change solidity_tag with (fence ++ py "solidity") in H.
  unfold occ_at in *; now rewrite (starts_with_weaken _ _ _ E) in H.
Qed.

(** ** More on [parse_llm_output] *)

Lemma code_no_fence (output : str) :
  no_occ fence
    (match re_search m_solidity_block output with
     | Some g => strip g
     | None => []
     end).
Proof.
  destruct (re_search m_solidity_block output) as [g|] eqn:E;
    [|apply (no_occ_nil 96%N (py "``"))].
  apply re_search_some_inv in E as (k & Hk & _).
  unfold m_solidity_block in Hk.
  destruct (strip_prefix solidity_tag (skipn k output)) as [rest|];
    [|discriminate].
  destruct (lazy_until fence rest) as [[g' r]|] eqn:El; [|discriminate].
  injection Hk as ->.
  apply (no_occ_strip (pat := py "``")).
  exact (@lazy_group_no_occ 96%N (py "``") rest g r El).
Qed.


(** X2: the code that [parse_llm_output] returns never holds a fence. *)
Theorem parse_code_without_fence (output : str) :
  exists c f l,
    parse_llm_output output = inr (c, f, l) /\ contains fence c = false.
Proof.
  destruct (split_inhabited fence output) as (seg & segs & Hparts).
  rewrite (parse_llm_output_parts _ Hparts).
  eexists _, _, _; split; [reflexivity|].
  apply no_occ_contains, code_no_fence.
Qed.

(** X3: whatever follows it, the first explanation is the text before
    the first fence of the reply, trimmed. *)
Theorem parse_first_explanation (a r : str) :
  first_at fence (a ++ fence ++ r) (length a) = true ->
  exists c l, parse_llm_output (a ++ fence ++ r) = inr (c, strip a, l).
Proof.
  intros H; apply first_at_true in H as [_ H].
  pose proof (split_first_fence a r H) as Hparts.
  rewrite (parse_llm_output_parts _ Hparts); now eexists _, _.
Qed.

Lemma parse_first_explanation_witness :
  let a := py " Two blocks follow. " in
  let r := py "solidity A ``` and ```solidity B ``` end" in
  first_at fence (a ++ fence ++ r) (length a) = true
  /\ exists c l,
       parse_llm_output (a ++ fence ++ r)
       = inr (c, py "Two blocks follow.", l).
Proof.
  split; [reflexivity|].
  apply (parse_first_explanation (py " Two blocks follow. ")); reflexivity.
Defined.

Lemma m_solidity_block_none (s : str) (i : nat) :
  (occ_at solidity_tag s i = true ->
   forall k, occ_at fence s (i + length solidity_tag + k) = false) ->
  m_solidity_block (skipn i s) = None.
Proof.
  intros H; unfold m_solidity_block.
  destruct (strip_prefix solidity_tag (skipn i s)) as [rest|] eqn:E;
    [|reflexivity].
  apply skipn_occ_at in E as [Hi Hk].
  rewrite lazy_until_no_occ; [reflexivity|].
  intros k; rewrite Hk; now apply H.
Qed.

Lemma one_element (l : list nat) (x z : nat) :
  length l = 1 -> In x l -> In z l -> z = x.
Proof.
  destruct l as [|u [|v l]]; try discriminate; intros _.
  simpl; intuition congruence.
Qed.

(** X4: a reply cut off inside its block, so that it holds one fence
    only, gives no code; the first explanation is the text before the
    fence and the last one all the text after it, both trimmed. *)
Theorem parse_unterminated_block (a b : str) :
  length (positions fence (a ++ fence ++ b)) = 1 ->
  parse_llm_output (a ++ fence ++ b) = inr ([], strip a, strip b)
  /\ trim_of a (strip a) /\ trim_of b (strip b).
Proof.
  intros H1; split; [|split; apply strip_trim_of].
  assert (Hocc : forall i, occ_at fence (a ++ fence ++ b) i = true ->
                           i = length a).
  { intros i Hi.
    apply one_element with (l := positions fence (a ++ fence ++ b));
      [exact H1 | |].
    - apply (in_positions 96%N), occ_at_app_0.
    - now apply (in_positions 96%N). }
  assert (Hfalse : forall i, i <> length a ->
                             occ_at fence (a ++ fence ++ b) i = false).
  { intros i Hi; destruct (occ_at fence (a ++ fence ++ b) i) eqn:E;
      [|reflexivity].
    now apply Hocc in E. }
  assert (Hparts : split fence (a ++ fence ++ b) = [a; b]).
  { rewrite split_first_fence by (intros i Hi; apply Hfalse; lia).
    rewrite split_no_occ; [reflexivity|].
    intros i.
    replace (occ_at fence b i)
      with (occ_at fence ((a ++ fence) ++ b) (length (a ++ fence) + i))
      by apply occ_at_app.
    rewrite <- app_assoc; apply Hfalse; rewrite length_app.
    change (length fence) with 3; lia. }
  rewrite (parse_llm_output_parts _ Hparts).
  rewrite re_search_none; [reflexivity|].
  intros i; apply m_solidity_block_none; intros Htag k.
  apply fence_of_tag, Hocc in Htag.
  apply Hfalse; change (length solidity_tag) with 11; lia.
Qed.

Lemma parse_unterminated_block_witness :
  let a := py " Here is the contract:
" in
  let b := py "solidity
contract T {
  function f() public " in
  length (positions fence (a ++ fence ++ b)) = 1
  /\ parse_llm_output (a ++ fence ++ b)
     = inr ([], py "Here is the contract:", py "solidity
contract T {
  function f() public").
Proof.
  split; [reflexivity|].
  exact (proj1 (parse_unterminated_block
                  (py " Here is the contract:
")
                  (py "solidity
contract T {
  function f() public ") eq_refl)).
Defined.

Lemma blank_no_fence (s : str) :
  forallb isspace s = true -> no_occ fence s.
Proof.
  intros H i; destruct (occ_at fence s i) eqn:E; [|reflexivity].
  apply starts_with_true in E as [r E].
  rewrite <- (firstn_skipn i s), E, forallb_app in H.
  apply andb_prop in H as [_ H]; discriminate H.
Qed.

(** X5: a reply of whitespace only, the empty reply included, gives
    three empty strings and no error. *)
Theorem parse_blank_reply (output : str) :
  forallb isspace output = true ->
  parse_llm_output output = inr ([], [], []).
Proof.
  intros H; pose proof (blank_no_fence output H) as Hno.
  rewrite (parse_llm_output_parts output (split_no_occ Hno)).
  rewrite (no_fence_no_block Hno); cbn [last].
  now rewrite (strip_blank _ H).
Qed.

Lemma parse_blank_reply_witness :
  forallb isspace [32; 10; 9; 160; 8232]%N = true
  /\ parse_llm_output [32; 10; 9; 160; 8232]%N = inr ([], [], []).
Proof.
  split; [reflexivity|].
  apply parse_blank_reply; reflexivity.
Defined.

Lemma join_with_cons (sep : str) (c : char) (seg : str) (segs : list str) :
  join_with sep ((c :: seg) :: segs) = c :: join_with sep (seg :: segs).
Proof. now destruct segs. Qed.

Lemma join_split_from (p : char) (sep : str) (k : nat) (s : str) :
  (let (seg, segs) := split_from (p :: sep) k s in
   join_with (p :: sep) (seg :: segs)) = skipn k s.
Proof.
  revert k; induction s as [|c s IH]; intros k;
    [now rewrite skipn_nil|].
  destruct k as [|k]; [|cbn [split_from skipn]; apply IH].
  cbn [split_from skipn].
  destruct (starts_with (p :: sep) (c :: s)) eqn:E.
  - specialize (IH (length (p :: sep) - 1)).
    destruct (split_from (p :: sep) (length (p :: sep) - 1) s) as [seg segs].
    change (join_with (p :: sep) ([] :: seg :: segs))
      with ((p :: sep) ++ join_with (p :: sep) (seg :: segs)).
    rewrite IH.
    apply starts_with_true in E as [r E]; cbn [app] in E.
    injection E as -> ->.
    replace (length (p :: sep) - 1) with (length sep) by (simpl; lia).
    now rewrite skipn_app_exact.
  - specialize (IH 0); cbn [skipn] in IH.
    destruct (split_from (p :: sep) 0 s) as [seg segs].
    now rewrite join_with_cons, IH.
Qed.

(** X6: the parts into which [parse_llm_output] splits the reply lose
    nothing of it: joined by the fence, they are the reply. *)
Theorem split_fence_join (output : str) :
  join_with fence (split fence output) = output.
Proof.
  pose proof (@join_split_from 96%N (py "``") 0 output) as H.
  unfold split; change (96%N :: py "``") with fence in H.
  now destruct (split_from fence 0 output).
Qed.

(** X7: for every reply that holds a block, the code is the trimmed
    interior of its first block: of the text between the first tagged
    fence and the first fence after it. *)
Theorem parse_code_of_first_block (output : str) :
  has_block output = true ->
  exists p body r f l,
    output = p ++ solidity_tag ++ body ++ fence ++ r
    /\ first_at solidity_tag output (length p) = true
    /\ first_at fence (body ++ fence ++ r) (length body) = true
    /\ parse_llm_output output = inr (strip body, f, l)
    /\ trim_of body (strip body).
Proof.
  intros H.
  destruct (first_block_exists output H) as (p & body & r & Hout & Ht & Hf).
  destruct (split_inhabited fence output) as (seg & segs & Hparts).
  exists p, body, r, (strip seg), (strip (last segs seg)).
  split; [exact Hout|]; split; [exact Ht|]; split; [exact Hf|].
  split; [|apply strip_trim_of].
  rewrite (parse_llm_output_parts _ Hparts).
  apply first_at_true in Ht as [_ Ht].
  apply first_at_true in Hf as [_ Hf].
  rewrite (@re_search_first _ m_solidity_block (length p) _ body);
    [reflexivity| |].
  - rewrite Hout at 1; rewrite skipn_app_exact; unfold m_solidity_block.
    now rewrite strip_prefix_app, (lazy_until_first_fence body r Hf).
  - intros i Hi; unfold m_solidity_block.
    now rewrite (starts_with_strip_prefix _ _ (Ht i Hi)).
Qed.

Lemma parse_code_of_first_block_witness :
  let output := py "A ```solidity
contract One { }
``` B ```solidity contract Two { } ``` C" in
  has_block output = true
  /\ exists body f l,
       parse_llm_output output = inr (strip body, f, l)
       /\ strip body = py "contract One { }".
Proof.
  split; [reflexivity|].
  destruct (parse_code_of_first_block
              (py "A ```solidity
contract One { }
``` B ```solidity contract Two { } ``` C") eq_refl)
    as (p & body & r & f & l & _ & _ & _ & Hp & _).
  exists body, f, l; split; [exact Hp|].
  assert (Hrun : parse_llm_output
                   (py "A ```solidity
contract One { }
``` B ```solidity contract Two { } ``` C")
                 = inr (py "contract One { }", py "A", py "C"))
    by reflexivity.
  rewrite Hrun in Hp; now injection Hp as <- _ _.
Defined.

(** ** More on the sanitizer *)

Lemma sanitize_slash_free (src : str) : no_occ slashes src -> sanitize src = src.
Proof.
  intros H; unfold sanitize, remove_spdx.
  rewrite re_sub_literal_id.
  - now apply re_sub_literal_dotstar_id.
  - change spdx_line with (slashes ++ py " SPDX-License-Identifier: MIT").
    now apply no_occ_weaken.
Qed.

(** X8: what the sanitizer returns holds no [//] at all, within a string
    literal or elsewhere. *)
Theorem sanitize_leaves_no_slashes (src : str) :
  contains slashes (sanitize src) = false.
Proof. apply no_occ_contains, remove_comments_no_slashes. Qed.

(** X9: a source without [//] goes to the compiler unchanged; block
    comments and blank lines stay. *)
Theorem sanitize_without_slashes (src : str) :
  contains slashes src = false -> sanitize src = src.
Proof. intros H; now apply sanitize_slash_free, contains_false_no_occ. Qed.

Lemma sanitize_without_slashes_witness :
  let src := py "/* SPDX-License-Identifier: MIT */
pragma solidity ^0.8.20;

contract A { uint x = 6 / 2; }
" in
  contains slashes src = false /\ sanitize src = src.
Proof.
  split; [reflexivity|].
  apply sanitize_without_slashes; reflexivity.
Defined.

(** X10: the comment pass works line by line: it cuts every line of the
    text at the first [//] of the line and keeps the line feeds. *)
Theorem remove_comments_by_line (src : str) :
  remove_comments src = join_lines (map cut_comment (lines src)).
Proof.
  rewrite <- (join_lines_lines src) at 1.
  apply remove_comments_lines, lines_no_nl.
Qed.

(** X11: when every line of the source is the licence comment alone or
    holds no occurrence of it, the sanitizer cuts every line at its
    first [//] and does nothing else. *)
Theorem sanitize_by_line (src : str) :
  forallb spdx_standalone_or_absent (lines src) = true ->
  sanitize src = join_lines (map cut_comment (lines src)).
Proof.
  intros H; unfold sanitize.
  destruct (licence_removed_no_nl _ H) as [_ Hnl].
  rewrite <- (join_lines_lines src) at 1.
  rewrite (remove_spdx_lines _ H), (remove_comments_lines _ Hnl), map_map.
  f_equal; apply map_ext; intros l; apply cut_comment_licence_removed.
Qed.

Lemma sanitize_by_line_witness :
  let src := join_lines [ py "// SPDX-License-Identifier: MIT";
                          py "pragma solidity ^0.8.20; // pinned";
                          py "contract A { } /* kept */" ] in
  forallb spdx_standalone_or_absent (lines src) = true
  /\ sanitize src = join_lines [ [];
                                 py "pragma solidity ^0.8.20; ";
                                 py "contract A { } /* kept */" ].
Proof.
  split; [reflexivity|].
  exact (sanitize_by_line
           (join_lines [ py "// SPDX-License-Identifier: MIT";
                         py "pragma solidity ^0.8.20; // pinned";
                         py "contract A { } /* kept */" ]) eq_refl).
Defined.

(** X12: the licence comment at the head of a source is deleted as a
    literal: what follows it is sanitized as if the source began there,
    so the rest of a longer licence line, when it holds no [//], stays
    in the source. *)
Theorem sanitize_licence_head :
  (forall rest, sanitize (spdx_line ++ rest) = sanitize rest)
  /\ (forall rest,
         contains slashes rest = false ->
         sanitize (spdx_line ++ rest) = rest).
Proof.
  assert (H : forall rest, sanitize (spdx_line ++ rest) = sanitize rest)
    by (intros rest; unfold sanitize; now rewrite remove_spdx_licence).
  split; [exact H|].
  intros rest Hno; rewrite H.
  now apply sanitize_slash_free, contains_false_no_occ.
Qed.

Lemma sanitize_licence_head_witness :
  let rest := py " OR Apache-2.0
pragma solidity ^0.8.20;" in
  contains slashes rest = false
  /\ sanitize (spdx_line ++ rest) = rest.
Proof.
  split; [reflexivity|].
  apply (proj2 sanitize_licence_head); reflexivity.
Defined.

Lemma subseq_refl (s : str) : subseq s s.
Proof. induction s; constructor; assumption. Qed.

Lemma subseq_skipn (a s : str) (n : nat) : subseq a (skipn n s) -> subseq a s.
Proof.
  revert s; induction n as [|n IH]; intros s H; [exact H|].
  destruct s as [|c s]; [exact H|].
  apply subseq_skip, IH, H.
Qed.

Lemma subseq_trans (a b c : str) : subseq a b -> subseq b c -> subseq a c.
Proof.
  intros Hab Hbc; revert a Hab.
  induction Hbc as [|x b c Hbc IH|x b c Hbc IH]; intros a Hab.
  - exact Hab.
  - apply subseq_skip, IH, Hab.
  - inversion Hab as [|y a' b' Hab'|y a' b' Hab']; subst.
    + apply subseq_skip, IH, Hab'.
    + apply subseq_take, IH, Hab'.
Qed.

Lemma re_sub_subseq (m : matcher) (s : str) : subseq (re_sub m s) s.
Proof.
  remember (length s) as n eqn:Hn.
  assert (Hle : length s <= n) by lia; clear Hn.
  revert s Hle; induction n as [|n IH]; intros [|c s] Hle;
    try apply subseq_nil; simpl in Hle; [lia|].
  rewrite re_sub_cons.
  destruct (m (c :: s)) as [[|k]|].
  - apply subseq_take, IH; lia.
  - apply subseq_skip, subseq_skipn with (n := k), IH.
    rewrite length_skipn; lia.
  - apply subseq_take, IH; lia.
Qed.

(** X13: the sanitizer only deletes: what it returns is the source with
    some characters left out, in the same order, and nothing added or
    changed. *)
Theorem sanitize_only_deletes (src : str) :
  subseq (sanitize src) src /\ length (sanitize src) <= length src.
Proof.
  assert (H : subseq (sanitize src) src).
  { unfold sanitize, remove_comments, remove_spdx.
    eapply subseq_trans; apply re_sub_subseq. }
  split; [exact H|].
  clear - H; induction H; simpl; lia.
Qed.

(** ** More on [compile_contract] *)

Lemma str_eqb_refl (a : str) : str_eqb a a = true.
Proof.
  induction a as [|x a IH]; [reflexivity|].
  cbn [str_eqb]; now rewrite N.eqb_refl, IH.
Qed.

Lemma sanitize_sanitized (src : str) :
  remove_comments (remove_spdx (sanitize src)) = sanitize src.
Proof.
  apply (sanitize_slash_free (src := sanitize src)).
  apply remove_comments_no_slashes.
Qed.

Section MoreCompilationProperties.

Variable compile_standard : compile_request -> result json.
Variable OPENZEPPELIN_PATH : str.
Variable subscript_error_text : json -> str.
Variable keys_error_text : json -> str.

Local Abbreviation endpoint :=
  (compile_contract compile_standard OPENZEPPELIN_PATH
     subscript_error_text keys_error_text).

(** X14: the endpoint answers a source and its sanitized text alike:
    sending source that was sanitized before changes nothing of the
    request to the compiler or of the outcome. *)
Theorem compile_contract_of_sanitized (src : str) :
  compile_request_of OPENZEPPELIN_PATH (sanitize (sanitize src))
  = compile_request_of OPENZEPPELIN_PATH (sanitize src)
  /\ endpoint (sanitize src) = endpoint src.
Proof.
  unfold compile_contract, compile_body, sanitize at 1.
  now rewrite !sanitize_sanitized.
Qed.

(** X15: when the compiler lists several contracts for the file, the
    endpoint returns the interface and the bytecode of the one listed
    first, whatever the others are. *)
Theorem compile_contract_first_contract
        (src : str) (fields files others ifs evm_fields bc_fields
           : list (str * json))
        (name : str) (the_abi obj : json) :
  compile_standard (compile_request_of OPENZEPPELIN_PATH (sanitize src))
  = inr (JObject fields) ->
  assoc (py "contracts") fields = Some (JObject files) ->
  assoc (py "Contract.sol") files
  = Some (JObject ((name, JObject ifs) :: others)) ->
  assoc (py "abi") ifs = Some the_abi ->
  assoc (py "evm") ifs = Some (JObject evm_fields) ->
  assoc (py "bytecode") evm_fields = Some (JObject bc_fields) ->
  assoc (py "object") bc_fields = Some obj ->
  endpoint src = Returned {| abi := the_abi; bytecode := obj |}.
Proof.
  intros Hc H1 H2 H3 H4 H5 H6.
  unfold compile_contract, compile_body; fold (sanitize src).
  rewrite Hc; cbn [bind_result getitem]; rewrite H1.
  cbn [bind_result getitem]; rewrite H2.
  cbn [bind_result keys map fst item_first getitem assoc].
  rewrite str_eqb_refl; cbn [bind_result getitem]; rewrite H3.
  cbn [bind_result getitem]; rewrite H4.
  cbn [bind_result getitem]; rewrite H5.
  cbn [bind_result getitem]; now rewrite H6.
Qed.

(** X16: when the entry of the first contract has no interface, the
    endpoint raises [HTTPException] 500 whose detail is the missing key
    between quotes, and returns no bytecode without it. *)
Theorem compile_contract_missing_abi
        (src : str) (fields files others ifs : list (str * json))
        (name : str) :
  compile_standard (compile_request_of OPENZEPPELIN_PATH (sanitize src))
  = inr (JObject fields) ->
  assoc (py "contracts") fields = Some (JObject files) ->
  assoc (py "Contract.sol") files
  = Some (JObject ((name, JObject ifs) :: others)) ->
  assoc (py "abi") ifs = None ->
  endpoint src = RaisedHTTP (HTTPException 500 (py "'abi'")).
Proof.
  intros Hc H1 H2 H3.
  unfold compile_contract, compile_body; fold (sanitize src).
  rewrite Hc; cbn [bind_result getitem]; rewrite H1.
  cbn [bind_result getitem]; rewrite H2.
  cbn [bind_result keys map fst item_first getitem assoc].
  rewrite str_eqb_refl; cbn [bind_result getitem]; now rewrite H3.
Qed.

End MoreCompilationProperties.

Lemma compile_contract_first_contract_witness :
  let src := py "contract A { } contract B { }" in
  let path := py "/app/node_modules/@openzeppelin" in
  (exists fields,
      solc_finds_two (compile_request_of path (sanitize src))
      = inr (JObject fields))
  /\ compile_contract solc_finds_two path runtime_text runtime_text src
     = Returned {| abi := JArray []; bytecode := JString (py "6080") |}.
Proof.
  split; [eexists; reflexivity|].
  eapply (compile_contract_first_contract solc_finds_two
            (py "/app/node_modules/@openzeppelin") runtime_text runtime_text
            (py "contract A { } contract B { }")); reflexivity.
Defined.

Lemma compile_contract_missing_abi_witness :
  let src := py "contract A { }" in
  let path := py "/app/node_modules/@openzeppelin" in
  (exists fields,
      solc_without_abi (compile_request_of path (sanitize src))
      = inr (JObject fields))
  /\ compile_contract solc_without_abi path runtime_text runtime_text src
     = RaisedHTTP (HTTPException 500 (py "'abi'")).
Proof.
  split; [eexists; reflexivity|].
  eapply (compile_contract_missing_abi solc_without_abi
            (py "/app/node_modules/@openzeppelin") runtime_text runtime_text
            (py "contract A { }")); reflexivity.
Defined.

(** ** More on [generate_contract] *)

Section MoreGenerationProperties.

Variable anthropic_create : llm_request -> result llm_response.

(** X17: a reply of whitespace only is no error: the endpoint returns
    three empty strings, after one call of the model. *)
Theorem generate_contract_blank_reply
        (description text : str) (blocks : llm_response) (tr : list event) :
  let prompt := prompt_head ++ description ++ [nl] in
  anthropic_create (llm_request_of prompt) = inr (TextBlock text :: blocks) ->
  forallb isspace text = true ->
  generate_contract anthropic_create description tr
  = (Returned {| code := []; first_explanation := [];
                 last_explanation := [] |},
     tr ++ [Printed prompt; MessagesCreate (llm_request_of prompt);
            Printed []]).
Proof.
  intros prompt Hcall Hblank.
  unfold generate_contract, generate_smart_contract, messages_create.
  unfold bind, lift, emit, try_500, ret.
  rewrite format_prompt_template; fold prompt; rewrite Hcall.
  cbn [item_first block_text]; rewrite (strip_blank _ Hblank).
  now rewrite <- !app_assoc.
Qed.

End MoreGenerationProperties.

Lemma generate_contract_blank_reply_witness :
  let prompt := prompt_head ++ py "a token" ++ [nl] in
  llm_blank (llm_request_of prompt) = inr [TextBlock [32; 10; 32]%N]
  /\ forallb isspace [32; 10; 32]%N = true
  /\ generate_contract llm_blank (py "a token") []
     = (Returned {| code := []; first_explanation := [];
                    last_explanation := [] |},
        [Printed prompt; MessagesCreate (llm_request_of prompt); Printed []]).
Proof.
  split; [reflexivity|]; split; [reflexivity|].
  exact (@generate_contract_blank_reply llm_blank (py "a token")
           [32; 10; 32]%N [] [] eq_refl eq_refl).
Defined.

(** X18: the example of the prompt is written in the format that
    [parse_llm_output] reads: for every description, parsing the prompt
    gives the interior of the example block, trimmed, as the code, and
    the first line of the prompt as the first explanation. *)
Theorem prompt_example_parses (description : str) :
  exists body l,
    example_contract = solidity_tag ++ body ++ fence ++ [nl]
    /\ parse_llm_output (prompt_head ++ description ++ [nl])
       = inr (strip body, prompt_intro, l).
Proof.
  set (a := nl :: prompt_intro ++ [nl]).
  set (body := skipn (length solidity_tag)
                 (firstn (length example_contract - 4) example_contract)).
  set (r := nl :: unlines
                    [ py "";
                      py "Create a Solidity smart contract with the following description: " ]
                  ++ description ++ [nl]).
  assert (Hprompt : prompt_head ++ description ++ [nl]
                    = a ++ solidity_tag ++ body ++ fence ++ r)
    by (vm_compute; reflexivity).
  assert (Hfence : forall i, i < length a ->
                     occ_at fence (a ++ fence ++ py "solidity" ++ body
                                     ++ fence ++ r) i = false).
  { apply first_at_true; vm_compute; reflexivity. }
  assert (Hclose : forall i, i < length body ->
                     occ_at fence (body ++ fence ++ r) i = false).
  { apply first_at_true; vm_compute; reflexivity. }
  assert (Htag : forall i, i < length a ->
                   occ_at solidity_tag
                     (a ++ solidity_tag ++ body ++ fence ++ r) i = false).
  { apply first_at_true; vm_compute; reflexivity. }
  pose proof (split_first_fence a (py "solidity" ++ body ++ fence ++ r) Hfence)
    as Hparts.
  change (a ++ fence ++ py "solidity" ++ body ++ fence ++ r)
    with (a ++ solidity_tag ++ body ++ fence ++ r) in Hparts.
  destruct (split_inhabited fence (py "solidity" ++ body ++ fence ++ r))
    as (seg & segs & Hrest).
  rewrite Hrest in Hparts.
  exists body, (strip (last (seg :: segs) a)).
  split; [vm_compute; reflexivity|].
  rewrite Hprompt, (parse_llm_output_parts _ Hparts).
  rewrite (@re_search_first _ m_solidity_block (length a) _ body).
  - reflexivity.
  - rewrite skipn_app_exact; unfold m_solidity_block.
    now rewrite strip_prefix_app, (lazy_until_first_fence body r Hclose).
  - intros i Hi; unfold m_solidity_block.
    now rewrite (starts_with_strip_prefix _ _ (Htag i Hi)).
Qed.

(** ** The usual reply *)

Lemma two_fences_parts (a b c : str) :
  length (positions fence (a ++ fence ++ b ++ fence ++ c)) = 2 ->
  split fence (a ++ fence ++ b ++ fence ++ c) = [a; b; c]
  /\ forall i, i <> length a -> i <> length a + 3 + length b ->
               occ_at fence (a ++ fence ++ b ++ fence ++ c) i = false.
Proof.
  intros H2.
  assert (Hocc : forall i, i <> length a -> i <> length a + 3 + length b ->
                   occ_at fence (a ++ fence ++ b ++ fence ++ c) i = false).
  { intros i Ha Hb.
    destruct (occ_at fence (a ++ fence ++ b ++ fence ++ c) i) eqn:E;
      [|reflexivity].
    apply (two_fences a b c _ H2) in E.
    change (length fence) with 3 in E; lia. }
  split; [|exact Hocc].
  rewrite (@split_first_fence a (b ++ fence ++ c))
    by (intros i Hi; apply Hocc; lia).
  assert (Hshift : forall x y i,
             a ++ fence ++ b ++ fence ++ c = x ++ y ->
             occ_at fence y i
             = occ_at fence (a ++ fence ++ b ++ fence ++ c) (length x + i))
    by (intros x y i ->; symmetry; apply occ_at_app).
  rewrite (@split_first_fence b c).
  - rewrite split_no_occ; [reflexivity|].
    intros i.
    rewrite (Hshift (a ++ fence ++ b ++ fence) c i)
      by now rewrite <- !app_assoc.
    apply Hocc; rewrite !length_app; change (length fence) with 3; lia.
  - intros i Hi.
    rewrite (Hshift (a ++ fence) (b ++ fence ++ c) i)
      by now rewrite <- !app_assoc.
    apply Hocc; rewrite !length_app; change (length fence) with 3; lia.
Qed.

(** X19: the usual reply, an explanation, one block tagged [solidity]
    and an explanation, with no other fence, is taken apart in full: the
    code is the interior of the block and the explanations are the texts
    around it, all three trimmed. *)
Theorem parse_usual_reply (a body c : str) :
  length (positions fence (a ++ solidity_tag ++ body ++ fence ++ c)) = 2 ->
  parse_llm_output (a ++ solidity_tag ++ body ++ fence ++ c)
  = inr (strip body, strip a, strip c).
Proof.
  set (b := py "solidity" ++ body).
  change (a ++ solidity_tag ++ body ++ fence ++ c)
    with (a ++ fence ++ b ++ fence ++ c).
  intros H2; destruct (two_fences_parts a b c H2) as [Hparts Hocc].
  rewrite (parse_llm_output_parts _ Hparts); cbn [last].
  change (a ++ fence ++ b ++ fence ++ c)
    with (a ++ solidity_tag ++ body ++ fence ++ c) in *.
  assert (Hb : length b = 8 + length body) by reflexivity.
  rewrite (@re_search_first _ m_solidity_block (length a) _ body);
    [reflexivity| |].
  - rewrite skipn_app_exact; unfold m_solidity_block.
    rewrite strip_prefix_app, lazy_until_first_fence; [reflexivity|].
    intros i Hi.
    replace (occ_at fence (body ++ fence ++ c) i)
      with (occ_at fence ((a ++ solidity_tag) ++ body ++ fence ++ c)
              (length (a ++ solidity_tag) + i))
      by apply occ_at_app.
    rewrite <- app_assoc; apply Hocc;
      rewrite length_app; change (length solidity_tag) with 11; lia.
  - intros i Hi; unfold m_solidity_block.
    rewrite starts_with_strip_prefix; [reflexivity|].
    destruct (starts_with solidity_tag
                (skipn i (a ++ solidity_tag ++ body ++ fence ++ c))) eqn:E;
      [|reflexivity].
    apply (fence_of_tag (a ++ solidity_tag ++ body ++ fence ++ c) i) in E.
    rewrite Hocc in E by lia; discriminate E.
Qed.

Lemma parse_usual_reply_witness :
  let a := py "Here is your token.

" in
  let body := py "
pragma solidity ^0.8.20;
contract T { }
" in
  let c := py "

It has no functions yet." in
  length (positions fence (a ++ solidity_tag ++ body ++ fence ++ c)) = 2
  /\ parse_llm_output (a ++ solidity_tag ++ body ++ fence ++ c)
     = inr (py "pragma solidity ^0.8.20;
contract T { }", py "Here is your token.", py "It has no functions yet.").
Proof.
  split; [reflexivity|].
  apply (parse_usual_reply (py "Here is your token.

")); reflexivity.
Defined.
